(** * PoeticLandscape: the per-frame simulation of the animated landscape

    A shallow embedding of [components/PoeticLandscape.tsx] and [types.ts].

    - A JavaScript [number] is an IEEE-754 binary64 value: Rocq's primitive
      [float], with its own rounding, comparisons and NaN.
    - [Math.sin] and [Math.cos] are left abstract (Section variables): the
      language leaves their last bits to the engine.
    - [Math.random()] is an oracle: a handler receives the stream of the
      values its successive calls return.
    - The 2D context is a trace of drawing commands.
    - The refs of the component ([frameCountRef], [mouseRef], [particlesRef],
      [ripplesRef], [goldDustRef], [requestRef]) form one explicit state
      record, threaded through the handlers and through [animate]. *)

From Stdlib Require Import ZArith Bool String Lia.
From Stdlib Require Import Floats Uint63.
From Stdlib Require Import FunInd Recdef.
From stdpp Require Import base option list.

Set Warnings "-inexact-float".

Local Open Scope Z_scope.

(** ** Numbers *)

Abbreviation number := float.

(** [Math.PI] *)
Definition PI : number := 0x1.921fb54442d18p+1%float.

(** An integer held in a [number] (a canvas dimension, a loop counter that
    steps by 5 from 0): below 2^53 every integer is a binary64 value. *)
Definition Z2F (z : Z) : number := PrimFloat.of_uint63 (Uint63.of_Z z).

(** ** The data model ([types.ts]) *)

Module Particle.
Record t : Type := mk
  { x : number; y : number; vx : number; vy : number;
    size : number; life : number; maxLife : number; color : string }.
End Particle.

Module Ripple.
Record t : Type := mk
  { x : number; y : number; radius : number; maxRadius : number;
    opacity : number; color : string }.
End Ripple.

Module MountainLayerConfig.
Record t : Type := mk
  { color : string; strokeColor : string;
    fillGradientStart : string; fillGradientEnd : string;
    yOffset : number; amplitude : number; frequency : number;
    speed : number; opacity : number; noise : number }.
End MountainLayerConfig.

(** [mouseRef.current] *)
Module Mouse.
Record t : Type := mk
  { x : number; y : number; targetX : number; targetY : number }.
End Mouse.

(** The part of a [React.MouseEvent] the handlers read. *)
Record MouseEvent : Type := { clientX : number; clientY : number }.

(** [window.innerWidth], [window.innerHeight] *)
Record Window : Type := { innerWidth : number; innerHeight : number }.

(** [canvas.width], [canvas.height]: [unsigned long] attributes. *)
Record Canvas : Type := { width : Z; height : Z }.

(** What [animate] finds behind [canvasRef.current] and [getContext('2d')]. *)
Inductive Surface : Type :=
| NoCanvas                 (* canvasRef.current is null *)
| NoContext (c : Canvas)   (* canvas.getContext('2d') is null *)
| Ready (c : Canvas).

(** The k-th value returned by [Math.random()] within one handler run. *)
Definition Rand : Type := nat -> number.

(** ** Palette and layers *)

Module PALETTE.
Definition bg : string := "#F4F1E8".
Definition stoneBlue : string := "#2B5F75".
Definition stoneGreen : string := "#4A8F78".
Definition darkGreen : string := "#1A3B32".
Definition ochre : string := "#A66E4E".
Definition faintBlue : string := "#8FAABC".
Definition gold : string := "#D4AF37".
Definition ink : string := "#1A1A1A".
Definition sealRed : string := "#B63B34".
End PALETTE.

Definition LAYERS : list MountainLayerConfig.t :=
  [ MountainLayerConfig.mk PALETTE.faintBlue "#6B8C9E" "#8FAABC" "#F4F1E8"
      0.35 80 0.002 0.02 0.6 10;
    MountainLayerConfig.mk PALETTE.stoneBlue "#1A3B32" PALETTE.stoneBlue PALETTE.bg
      0.55 120 0.003 0.05 0.9 20;
    MountainLayerConfig.mk PALETTE.stoneGreen "#2B4F3F" PALETTE.stoneGreen PALETTE.bg
      0.75 100 0.004 0.1 0.95 15;
    MountainLayerConfig.mk PALETTE.ochre "#5C3A28"
      "rgba(166, 110, 78, 0.4)" "rgba(244, 241, 232, 0.1)"
      0.9 60 0.0015 0.2 0.8 5 ]%float.

(** ** The drawing surface as a trace *)

Inductive Style : Type :=
| Color (c : string)
| LinearGradient (x0 y0 x1 y1 : number) (stops : list (number * string)).

Inductive Cmd : Type :=
| ClearRect (x y w h : number)
| FillRect (x y w h : number)
| BeginPath
| MoveTo (x y : number)
| LineTo (x y : number)
| ClosePath
| Arc (x y r a0 a1 : number)
| SetFillStyle (s : Style)
| SetStrokeStyle (s : Style)
| SetLineWidth (w : number)
| SetGlobalAlpha (a : number)
| Fill
| Stroke.

(** ** The component state *)

Record State : Type := mkState
  { frameCount : Z;
    mouse : Mouse.t;
    particles : list Particle.t;
    ripples : list Ripple.t;
    goldDust : list Particle.t;
    requestRef : option Z }.

(** [frameCountRef.current++] on a binary64 counter: exact below 2^53, where
    adding 1 rounds back to 2^53. *)
Definition incr (n : Z) : Z := if n <? 2 ^ 53 then n + 1 else n.

(** ** Interaction handlers *)

Local Open Scope float_scope.

(** [useEffect] initialising the gold dust: 40 pushes, five draws each. *)
Fixpoint initDust (win : Window) (rnd : Rand) (i : nat) (n : nat)
  : list Particle.t :=
  match n with
  | O => []
  | S n' =>
      Particle.mk
        (rnd (5 * i)%nat * innerWidth win)
        (rnd (5 * i + 1)%nat * innerHeight win)
        ((rnd (5 * i + 2)%nat - 0.5) * 0.2)
        ((rnd (5 * i + 3)%nat - 0.5) * 0.2)
        (rnd (5 * i + 4)%nat * 2 + 0.5)
        1 1 PALETTE.gold
      :: initDust win rnd (S i) n'
  end.

Definition handleMouseMove (win : Window) (e : MouseEvent) (rnd : Rand)
    (st : State) : State :=
  let m := mouse st in
  let m' := Mouse.mk (Mouse.x m) (Mouse.y m)
              (clientX e - innerWidth win / 2)
              (clientY e - innerHeight win / 2) in
  let ps :=
    if (frameCount st mod 2 =? 0)%Z then
      particles st ++
        [ Particle.mk (clientX e) (clientY e)
            ((rnd 0%nat - 0.5) * 0.5)
            (rnd 1%nat * 0.5)
            (rnd 2%nat * 4 + 2)
            1.0 1.0
            (if 0.5 <? rnd 3%nat then "#111"%string else "#223"%string) ]
    else particles st in
  mkState (frameCount st) m' ps (ripples st) (goldDust st) (requestRef st).

Definition handleClick (e : MouseEvent) (rnd : Rand) (st : State) : State :=
  mkState (frameCount st) (mouse st) (particles st)
    (ripples st ++
       [ Ripple.mk (clientX e) (clientY e) 0 (100 + rnd 0%nat * 50) 0.6
           (if 0.5 <? rnd 1%nat then PALETTE.stoneGreen else PALETTE.stoneBlue) ])
    (goldDust st) (requestRef st).

(** ** Drawing logic *)

Definition drawRicePaperTexture (width height : number) (rnd : Rand)
  : list Cmd :=
  [ SetFillStyle (Color PALETTE.bg); FillRect 0 0 width height;
    SetFillStyle (Color "rgba(160, 150, 130, 0.08)") ]
  ++ map (fun i : nat =>
            let x := rnd (3 * i)%nat * width in
            let y := rnd (3 * i + 1)%nat * height in
            let s := rnd (3 * i + 2)%nat * 2 in
            FillRect x y s s)
         (seq 0 400).

Section Trig.

(** [Math.sin], [Math.cos] *)
Variable sin cos : number -> number.

Section Mountain.

Variable width height : Z.
Variable layer : MountainLayerConfig.t.
Variable time parallaxX : number.

Let yOffset := MountainLayerConfig.yOffset layer.
Let amplitude := MountainLayerConfig.amplitude layer.
Let frequency := MountainLayerConfig.frequency layer.
Let speed := MountainLayerConfig.speed layer.
Let noise := MountainLayerConfig.noise layer.

Definition currentParallax : number := parallaxX * speed.
Definition breath : number := sin (time * 0.5) * 5.
Definition baseY : number := Z2F height * yOffset + breath.

(** [for (let x = 0; x <= width; x += 5)] of the fill path.  The counter
    only holds integers, none above [width + 5], on which the binary64 step
    is the integer one: it is kept as an integer and converted where the
    arithmetic reads it. *)
Function fillWave (x : Z) {measure (fun x => Z.to_nat (width + 1 - x)) x}
  : list Cmd :=
  if (x <=? width)%Z then
    let y1 := sin ((Z2F x + currentParallax) * frequency + time * 0.1)
              * amplitude in
    let y2 := sin ((Z2F x + currentParallax) * (frequency * 2.5) + time * 0.2)
              * (amplitude * 0.3) in
    let y3 := cos ((Z2F x - currentParallax) * (frequency * 5)) * noise in
    LineTo (Z2F x) (baseY - (y1 + y2 + y3)) :: fillWave (x + 5)
  else [].
Proof. intros x Hx. apply Z.leb_le in Hx. lia. Defined.

(** The second loop, re-tracing the top line for the stroke. *)
Function strokeWave (x : Z) {measure (fun x => Z.to_nat (width + 1 - x)) x}
  : list Cmd :=
  if (x <=? width)%Z then
    let y1 := sin ((Z2F x + currentParallax) * frequency + time * 0.1)
              * amplitude in
    let y2 := sin ((Z2F x + currentParallax) * (frequency * 2.5) + time * 0.2)
              * (amplitude * 0.3) in
    let y3 := cos ((Z2F x - currentParallax) * (frequency * 5)) * noise in
    if (x =? 0)%Z then
      MoveTo (Z2F x) (baseY - (y1 + y2 + y3)) :: strokeWave (x + 5)
    else
      LineTo (Z2F x) (baseY - (y1 + y2 + y3)) :: strokeWave (x + 5)
  else [].
Proof.
  all: intros;
    match goal with H : (_ <=? _)%Z = true |- _ => apply Z.leb_le in H end;
    lia.
Defined.

Definition drawMountain : list Cmd :=
  [ BeginPath; MoveTo 0 (Z2F height) ]
  ++ fillWave 0
  ++ [ LineTo (Z2F width) (Z2F height); ClosePath;
       SetFillStyle
         (LinearGradient 0 (baseY - amplitude) 0 (Z2F height)
            [ (0, MountainLayerConfig.fillGradientStart layer);
              (1, MountainLayerConfig.fillGradientEnd layer) ]);
       SetGlobalAlpha (MountainLayerConfig.opacity layer);
       Fill;
       SetGlobalAlpha 1.0;
       BeginPath ]
  ++ strokeWave 0
  ++ [ SetStrokeStyle (Color (MountainLayerConfig.strokeColor layer));
       SetLineWidth 1.5;
       Stroke ].

End Mountain.

(** *** Gold dust (atmosphere) *)

(** Float movement: [p.y] is advanced with the already advanced [p.x]. *)
Definition drift (t : number) (p : Particle.t) : Particle.t :=
  let x' := Particle.x p + sin (t + Particle.y p * 0.01) * 0.5 in
  let y' := Particle.y p + cos (t + x' * 0.01) * 0.2 in
  Particle.mk x' y' (Particle.vx p) (Particle.vy p) (Particle.size p)
    (Particle.life p) (Particle.maxLife p) (Particle.color p).

(** Wrap around: four successive [if] statements. *)
Definition wrap (width height : number) (p : Particle.t) : Particle.t :=
  let x1 := if width <? Particle.x p then 0 else Particle.x p in
  let x2 := if x1 <? 0 then width else x1 in
  let y1 := if height <? Particle.y p then 0 else Particle.y p in
  let y2 := if y1 <? 0 then height else y1 in
  Particle.mk x2 y2 (Particle.vx p) (Particle.vy p) (Particle.size p)
    (Particle.life p) (Particle.maxLife p) (Particle.color p).

Definition drawDust (t : number) (p : Particle.t) : list Cmd :=
  [ BeginPath;
    Arc (Particle.x p) (Particle.y p) (Particle.size p) 0 (PI * 2);
    SetFillStyle (Color (Particle.color p));
    SetGlobalAlpha (0.5 + sin (t * 5 + Particle.x p) * 0.3);
    Fill ].

(** [goldDustRef.current.forEach(p => ...)]: every element is mutated in
    place and drawn; the array itself is untouched. *)
Fixpoint forEachDust (t width height : number) (ps : list Particle.t)
  : list Particle.t * list Cmd :=
  match ps with
  | [] => ([], [])
  | p :: ps' =>
      let p' := wrap width height (drift t p) in
      let '(qs, out) := forEachDust t width height ps' in
      (p' :: qs, drawDust t p' ++ out)
  end.

(** *** Ripples (ink expansion) *)

Definition growRipple (r : Ripple.t) : Ripple.t :=
  Ripple.mk (Ripple.x r) (Ripple.y r) (Ripple.radius r + 1.5)
    (Ripple.maxRadius r) (Ripple.opacity r - 0.01) (Ripple.color r).

Definition drawRipple (r : Ripple.t) : list Cmd :=
  [ BeginPath;
    Arc (Ripple.x r) (Ripple.y r) (Ripple.radius r) 0 (PI * 2);
    SetStrokeStyle (Color (Ripple.color r));
    SetLineWidth (2 + (1 - Ripple.opacity r) * 10);
    SetGlobalAlpha (Ripple.opacity r);
    Stroke ]
  ++ (if 20 <? Ripple.radius r then
        [ BeginPath;
          Arc (Ripple.x r) (Ripple.y r) (Ripple.radius r - 15) 0 (PI * 2);
          SetStrokeStyle (Color (Ripple.color r));
          SetLineWidth 1;
          SetGlobalAlpha (Ripple.opacity r * 0.5);
          Stroke ]
      else []).

(** [for (let i = length - 1; i >= 0; i--)]: [n] is [i + 1].  Reading an
    index outside the array gives [undefined], whose field access throws:
    [None]. *)
Fixpoint rippleLoop (n : nat) (rs : list Ripple.t)
  : option (list Ripple.t * list Cmd) :=
  match n with
  | O => Some (rs, [])
  | S i =>
      r ← rs !! i;
      let r' := growRipple r in
      if Ripple.opacity r' <=? 0 then rippleLoop i (delete i rs)
      else
        '(rs', out) ← rippleLoop i (<[i := r']> rs);
        Some (rs', drawRipple r' ++ out)
  end.

(** *** Brush trail (mouse ink) *)

Definition dryInk (p : Particle.t) : Particle.t :=
  Particle.mk (Particle.x p) (Particle.y p) (Particle.vx p) (Particle.vy p)
    (Particle.size p * 0.98) (Particle.life p - 0.02)
    (Particle.maxLife p) (Particle.color p).

Definition drawInk (p : Particle.t) : list Cmd :=
  [ BeginPath;
    Arc (Particle.x p) (Particle.y p) (Particle.size p) 0 (PI * 2);
    SetFillStyle (Color (Particle.color p));
    SetGlobalAlpha (Particle.life p * 0.6);
    Fill ].

Fixpoint inkLoop (n : nat) (ps : list Particle.t)
  : option (list Particle.t * list Cmd) :=
  match n with
  | O => Some (ps, [])
  | S i =>
      p ← ps !! i;
      let p' := dryInk p in
      if Particle.life p' <=? 0 then inkLoop i (delete i ps)
      else
        '(ps', out) ← inkLoop i (<[i := p']> ps);
        Some (ps', drawInk p' ++ out)
  end.

(** *** The frame callback *)

(** What one call of [animate] leaves behind: the refs, what was drawn, and
    whether it called [requestAnimationFrame(animate)]. *)
Record Frame : Type := mkFrame
  { state : State; drawn : list Cmd; rescheduled : bool }.

(** [handle] is the id [requestAnimationFrame] returns if it is called;
    [None] is a thrown exception. *)
Definition animate (s : Surface) (time : number) (rnd : Rand) (handle : Z)
    (st : State) : option Frame :=
  match s with
  | NoCanvas => Some (mkFrame st [] false)
  | NoContext _ => Some (mkFrame st [] false)
  | Ready canvas =>
      let frameCount' := incr (frameCount st) in
      let w := Z2F (width canvas) in
      let h := Z2F (height canvas) in
      let t := time * 0.001 in
      let m := mouse st in
      let mx := Mouse.x m + (Mouse.targetX m - Mouse.x m) * 0.05 in
      let my := Mouse.y m + (Mouse.targetY m - Mouse.y m) * 0.05 in
      let m' := Mouse.mk mx my (Mouse.targetX m) (Mouse.targetY m) in
      let background := ClearRect 0 0 w h :: drawRicePaperTexture w h rnd in
      let mountains :=
        concat (map (fun layer =>
                       drawMountain (width canvas) (height canvas) layer t mx)
                    LAYERS) in
      let '(dust', dustOut) := forEachDust t w h (goldDust st) in
      '(ripples', ripplesOut) ← rippleLoop (length (ripples st)) (ripples st);
      '(particles', inkOut) ← inkLoop (length (particles st)) (particles st);
      Some (mkFrame
              (mkState frameCount' m' particles' ripples' dust' (Some handle))
              (background ++ mountains ++ dustOut ++ ripplesOut ++ inkOut
               ++ [ SetGlobalAlpha 1.0 ])
              true)
  end.

End Trig.

(** ** The environment: events, handler runs and the frame scheduler *)

Inductive Event : Type :=
| MouseMoved (win : Window) (e : MouseEvent) (rnd : Rand)
| Clicked (e : MouseEvent) (rnd : Rand)
| FrameDue (s : Surface) (time : number) (rnd : Rand) (handle : Z).

(** The refs right after mount: the dust effect has run and the first frame
    has been requested. *)
Definition mounted (win : Window) (rnd : Rand) (handle : Z) : State :=
  mkState 0 (Mouse.mk 0 0 0 0) [] [] (initDust win rnd 0 40) (Some handle).

(** The refs together with the browser's side of [requestAnimationFrame]:
    whether a call of [animate] is still owed. *)
Record World : Type := mkWorld { refs : State; pending : bool }.

Definition mount (win : Window) (rnd : Rand) (handle : Z) : World :=
  mkWorld (mounted win rnd handle) true.

Section Run.

Variable sin cos : number -> number.

(** The handler an event calls. *)
Definition handle (ev : Event) (st : State) : option State :=
  match ev with
  | MouseMoved win e rnd => Some (handleMouseMove win e rnd st)
  | Clicked e rnd => Some (handleClick e rnd st)
  | FrameDue s time rnd h => state <$> animate sin cos s time rnd h st
  end.

(** A sequence of handler calls. *)
Fixpoint exec (evs : list Event) (st : State) : option State :=
  match evs with
  | [] => Some st
  | ev :: evs' => st' ← handle ev st; exec evs' st'
  end.

(** The same under the scheduler: a display refresh calls [animate] only
    when a request is pending, and consumes it. *)
Definition deliver (ev : Event) (w : World) : option World :=
  match ev with
  | FrameDue s time rnd h =>
      if pending w then
        f ← animate sin cos s time rnd h (refs w);
        Some (mkWorld (state f) (rescheduled f))
      else Some w
  | _ => st ← handle ev (refs w); Some (mkWorld st (pending w))
  end.

Fixpoint play (evs : list Event) (w : World) : option World :=
  match evs with
  | [] => Some w
  | ev :: evs' => w' ← deliver ev w; play evs' w'
  end.

End Run.

(** Display refreshes only: each is a surface, a timestamp, the frame's
    random draws and the id a request would get. *)
Definition refreshes (fs : list (Surface * number * Rand * Z)) : list Event :=
  map (fun f => FrameDue f.1.1.1 f.1.1.2 f.1.2 f.2) fs.

(** Two gold-dust particles that differ at most in their position. *)
Definition sameDust (p q : Particle.t) : Prop :=
  Particle.vx q = Particle.vx p /\ Particle.vy q = Particle.vy p
  /\ Particle.size q = Particle.size p /\ Particle.life q = Particle.life p
  /\ Particle.maxLife q = Particle.maxLife p
  /\ Particle.color q = Particle.color p.

(** Successive move events, no frame in between. *)
Definition moves (win : Window) (evs : list (MouseEvent * Rand)) (st : State)
  : State :=
  foldl (fun s er => handleMouseMove win er.1 er.2 s) st evs.

(** Successive frames seen from one pool, nothing spawned in between. *)
Fixpoint inkFrames (n : nat) (ps : list Particle.t) : option (list Particle.t) :=
  match n with
  | O => Some ps
  | S n' => '(ps', _) ← inkLoop (length ps) ps; inkFrames n' ps'
  end.

Fixpoint rippleFrames (n : nat) (rs : list Ripple.t) : option (list Ripple.t) :=
  match n with
  | O => Some rs
  | S n' => '(rs', _) ← rippleLoop (length rs) rs; rippleFrames n' rs'
  end.

(** What the last of [n] successive frames draws for a ripple pool. *)
Fixpoint rippleDrawnAt (n : nat) (rs : list Ripple.t) : option (list Cmd) :=
  match n with
  | O => Some []
  | S n' =>
      '(rs', out) ← rippleLoop (length rs) rs;
      match n' with O => Some out | S _ => rippleDrawnAt n' rs' end
  end.

(** ** Reference descriptions the loops are compared with *)

(** A backward index loop that updates each element in place, splices the
    dead ones and draws the others. *)
Section Sweep.

Context {A : Type}.
Variable update : A -> A.
Variable dead : A -> bool.
Variable draw : A -> list Cmd.

Fixpoint sweep (n : nat) (l : list A) : option (list A * list Cmd) :=
  match n with
  | O => Some (l, [])
  | S i =>
      a ← l !! i;
      let a' := update a in
      if dead a' then sweep i (delete i l)
      else
        '(l', out) ← sweep i (<[i := a']> l);
        Some (l', draw a' ++ out)
  end.

(** Retain-filter: update everything, keep what is not dead. *)
Definition survivors (l : list A) : list A :=
  List.filter (fun a => negb (dead a)) (map update l).

(** The survivors are drawn last to first. *)
Definition sweepDrawn (l : list A) : list Cmd :=
  concat (map draw (rev (survivors l))).

(** [goneWithin k a]: [a] is dead after one of its next [k] updates, so
    that the k-th next frame at the latest has spliced it. *)
Fixpoint goneWithin (k : nat) (a : A) : bool :=
  match k with
  | O => false
  | S k' => dead (update a) || goneWithin k' (update a)
  end.

End Sweep.

Definition inkDead (p : Particle.t) : bool := (Particle.life p <=? 0)%float.
Definition rippleDead (r : Ripple.t) : bool := (Ripple.opacity r <=? 0)%float.

(** Smooth mouse LERP: a twentieth of the way to the target. *)
Definition lerp (m : Mouse.t) : Mouse.t :=
  Mouse.mk (Mouse.x m + (Mouse.targetX m - Mouse.x m) * 0.05)%float
           (Mouse.y m + (Mouse.targetY m - Mouse.y m) * 0.05)%float
           (Mouse.targetX m) (Mouse.targetY m).

(** [x = 0] to [width] in steps of 5. *)
Definition sampleXs (width : Z) : list Z :=
  map (fun k : nat => (5 * Z.of_nat k)%Z) (seq 0 (Z.to_nat (width / 5 + 1))).

(** The silhouette at [x] as the design describes it: the base line minus
    a wave field of three terms, a primary wave (amplitude A, frequency f,
    phase [(x + parallax * speed) * f + time * 0.1]), a detail wave (0.3 A,
    2.5 f, phase term [time * 0.2]) and a roughness term (the layer's noise,
    5 f, on [x - parallax * speed]). *)
Definition silhouette (sin cos : number -> number) (height : Z)
    (layer : MountainLayerConfig.t) (time parallaxX : number) (x : Z)
  : number * number :=
  let A := MountainLayerConfig.amplitude layer in
  let f := MountainLayerConfig.frequency layer in
  let offset := (parallaxX * MountainLayerConfig.speed layer)%float in
  let baseline :=
    (Z2F height * MountainLayerConfig.yOffset layer + sin (time * 0.5) * 5)%float in
  let primary := (sin ((Z2F x + offset) * f + time * 0.1) * A)%float in
  let detail := (sin ((Z2F x + offset) * (f * 2.5) + time * 0.2) * (A * 0.3))%float in
  let roughness :=
    (cos ((Z2F x - offset) * (f * 5)) * MountainLayerConfig.noise layer)%float in
  (Z2F x, (baseline - (primary + detail + roughness))%float).

(** A sample as a segment of the fill path, and as a step of the stroke,
    which starts with a [moveTo]. *)
Definition fillTo (pt : number * number) : Cmd := LineTo pt.1 pt.2.
Definition strokeTo (x : Z) (pt : number * number) : Cmd :=
  if (x =? 0)%Z then MoveTo pt.1 pt.2 else LineTo pt.1 pt.2.

(** The point a path command goes to. *)
Definition vertex (c : Cmd) : option (number * number) :=
  match c with
  | MoveTo x y => Some (x, y)
  | LineTo x y => Some (x, y)
  | _ => None
  end.

(** A ripple with its [maxRadius] blanked out. *)
Definition forgetMaxRadius (r : Ripple.t) : Ripple.t :=
  Ripple.mk (Ripple.x r) (Ripple.y r) (Ripple.radius r) 0
    (Ripple.opacity r) (Ripple.color r).

(** The same pools, blind to [maxRadius]. *)
Definition forgetState (st : State) : State :=
  mkState (frameCount st) (mouse st) (particles st)
    (map forgetMaxRadius (ripples st)) (goldDust st) (requestRef st).

Definition forgetFrame (f : Frame) : Frame :=
  mkFrame (forgetState (state f)) (drawn f) (rescheduled f).

(** A pool all of whose entities are gone within [k] frames. *)
Definition goneAll {A : Type} (update : A -> A) (dead : A -> bool) (k : nat)
    (l : list A) : Prop :=
  Forall (fun a => goneWithin update dead k a = true) l.

(** Counting the events of a run. *)
Definition isReadyFrame (ev : Event) : bool :=
  match ev with FrameDue (Ready _) _ _ _ => true | _ => false end.
Definition isMove (ev : Event) : bool :=
  match ev with MouseMoved _ _ _ => true | _ => false end.
Definition isClick (ev : Event) : bool :=
  match ev with Clicked _ _ => true | _ => false end.
Definition count (f : Event -> bool) (evs : list Event) : nat :=
  length (List.filter f evs).

(** ** Further descriptions: ages, paint, the pointer, teardown *)

(** Life of an ink particle, opacity and radius of a ripple, [k] updates
    after the spawn. *)
Definition lifeAt (k : nat) : number :=
  Nat.iter k (fun l => l - 0.02)%float 1.0%float.
Definition opacityAt (k : nat) : number :=
  Nat.iter k (fun o => o - 0.01)%float 0.6%float.
Definition radiusAt (k : nat) : number :=
  Nat.iter k (fun r => r + 1.5)%float 0%float.

(** The width [drawRipple] strokes the outer ring with. *)
Definition ringWidth (r : Ripple.t) : number :=
  (2 + (1 - Ripple.opacity r) * 10)%float.

(** An ink particle, a ripple, of some age below its last. *)
Definition inkAged (p : Particle.t) : Prop :=
  exists k : nat, (k <= 49)%nat /\ Particle.life p = lifeAt k.
Definition rippleAged (r : Ripple.t) : Prop :=
  exists k : nat, (k <= 59)%nat /\ Ripple.opacity r = opacityAt k
            /\ Ripple.radius r = radiusAt k.

(** Neither beyond the right or bottom edge of the canvas nor before its
    left or top edge, as the wrap tests it. *)
Definition onCanvas (c : Canvas) (p : Particle.t) : Prop :=
  (Z2F (width c) <? Particle.x p)%float = false
  /\ (Particle.x p <? 0)%float = false
  /\ (Z2F (height c) <? Particle.y p)%float = false
  /\ (Particle.y p <? 0)%float = false.

(** The 2D context composites [fill], [stroke] and [fillRect] with the
    [globalAlpha] in force: what a trace paints, with which alpha, from the
    alpha it starts with. *)
Fixpoint paints (alpha : number) (cs : list Cmd) : list (Cmd * number) :=
  match cs with
  | [] => []
  | SetGlobalAlpha a :: cs' => paints a cs'
  | Fill :: cs' => (Fill, alpha) :: paints alpha cs'
  | Stroke :: cs' => (Stroke, alpha) :: paints alpha cs'
  | FillRect x y w h :: cs' => (FillRect x y w h, alpha) :: paints alpha cs'
  | _ :: cs' => paints alpha cs'
  end.

(** The [globalAlpha] a trace leaves behind. *)
Fixpoint alphaAfter (alpha : number) (cs : list Cmd) : number :=
  match cs with
  | [] => alpha
  | SetGlobalAlpha a :: cs' => alphaAfter a cs'
  | _ :: cs' => alphaAfter alpha cs'
  end.

(** Commands that only extend the current path; commands of the paper
    texture. *)
Definition pathOnly (c : Cmd) : bool :=
  match c with
  | BeginPath | MoveTo _ _ | LineTo _ _ | ClosePath => true
  | _ => false
  end.
Definition isRect (c : Cmd) : bool :=
  match c with FillRect _ _ _ _ => true | _ => false end.
Definition rectOrStyle (c : Cmd) : bool :=
  match c with
  | FillRect _ _ _ _ | ClearRect _ _ _ _ | SetFillStyle _ => true
  | _ => false
  end.

(** The last pointer move of a run. *)
Fixpoint lastMove (evs : list Event) : option (Window * MouseEvent) :=
  match evs with
  | [] => None
  | MouseMoved win e _ :: evs' =>
      match lastMove evs' with
      | Some m => Some m
      | None => Some (win, e)
      end
  | _ :: evs' => lastMove evs'
  end.

(** Where a move puts the parallax target: the pointer relative to the
    centre of the viewport. *)
Definition targetOf (m : Window * MouseEvent) : number * number :=
  ((clientX m.2 - innerWidth m.1 / 2)%float,
   (clientY m.2 - innerHeight m.1 / 2)%float).

(** The parallax target and the smoothed position held in [mouseRef]. *)
Definition targetIn (st : State) : number * number :=
  (Mouse.targetX (mouse st), Mouse.targetY (mouse st)).

Definition smoothedIn (st : State) : number * number :=
  (Mouse.x (mouse st), Mouse.y (mouse st)).

Definition isInput (ev : Event) : bool := isMove ev || isClick ev.

(** A display refresh that finds the surface ready, or another event. *)
Definition surfaceReady (ev : Event) : bool :=
  match ev with
  | FrameDue NoCanvas _ _ _ => false
  | FrameDue (NoContext _) _ _ _ => false
  | _ => true
  end.

(** The id a refresh would hand to [requestAnimationFrame]. *)
Definition frameId (ev : Event) : option Z :=
  match ev with FrameDue _ _ _ h => Some h | _ => None end.

(** The teardown of the frame effect:
    [if (requestRef.current) cancelAnimationFrame(requestRef.current)].
    A pending request is always the last one made, the one [requestRef]
    names; the id 0 is falsy and cancels nothing. *)
Definition cleanup (w : World) : World :=
  match requestRef (refs w) with
  | Some id => if (id =? 0)%Z then w else mkWorld (refs w) false
  | None => w
  end.

(** * Properties *)

Local Open Scope nat_scope.

(** ** Numbers *)

(** Two binary64 values that the bitwise equality test tells apart are
    different. *)
Lemma float_neq (a b : number) : PrimFloat.Leibniz.eqb a b = false -> a <> b.
Proof.
  intros Hab Heq. apply Leibniz.eqb_spec in Heq. congruence.
Qed.

(** What a negative number and a canvas dimension compare to. *)
Lemma SF_negative (x : spec_float) :
  SFltb x (S754_zero false) = true ->
  x = S754_infinity true \/ exists m e, x = S754_finite true m e.
Proof.
  destruct x as [s|[]| |[] m e]; cbn; try discriminate; eauto.
Qed.

Lemma binary_round_aux_sign (m e : Z) (l : location) :
  let r := binary_round_aux prec emax false m e l in
  r = S754_nan \/ r = S754_zero false \/ r = S754_infinity false
  \/ exists m' e', r = S754_finite false m' e'.
Proof.
  unfold binary_round_aux.
  destruct (shr_fexp prec emax m e l) as [mrs e1].
  destruct (shr_fexp prec emax _ e1 loc_Exact) as [mrs' e2].
  destruct (shr_m mrs'); [| destruct (Z.leb _ _) |]; cbn; eauto 6.
Qed.

Lemma Z2F_sign (z : Z) :
  let r := Prim2SF (Z2F z) in
  r = S754_nan \/ r = S754_zero false \/ r = S754_infinity false
  \/ exists m e, r = S754_finite false m e.
Proof.
  unfold Z2F. rewrite of_uint63_spec.
  pose proof (Uint63.to_Z_bounded (Uint63.of_Z z)) as [Hlo _].
  destruct (Uint63.to_Z (Uint63.of_Z z)) as [|p|p]; [cbn; eauto | | lia].
  unfold binary_normalize, binary_round.
  destruct (shl_align p 0 _) as [mz ez].
  apply binary_round_aux_sign.
Qed.

(** A canvas dimension is never below a negative coordinate. *)
Lemma Z2F_not_below_negative (z : Z) (x : number) :
  (x <? 0)%float = true -> (Z2F z <? x)%float = false.
Proof.
  rewrite !FloatAxioms.ltb_spec. change (Prim2SF 0) with (S754_zero false).
  intros Hx. apply SF_negative in Hx.
  destruct (Z2F_sign z) as [-> | [-> | [-> | (m & e & ->)]]];
    destruct Hx as [-> | (m' & e' & ->)]; reflexivity.
Qed.

(** ** The backward splice loops are retain-filters *)

Section SweepFacts.

Context {A : Type}.
Variable update : A -> A.
Variable dead : A -> bool.
Variable draw : A -> list Cmd.

Lemma survivors_app (l1 l2 : list A) :
  survivors update dead (l1 ++ l2)
  = survivors update dead l1 ++ survivors update dead l2.
Proof. unfold survivors. by rewrite map_app, List.filter_app. Qed.

Lemma survivors_length (l : list A) :
  length (survivors update dead l) <= length l.
Proof.
  unfold survivors. etrans; [apply List.filter_length_le|].
  by rewrite length_map.
Qed.

(** With the indices below [length pre] still to visit, the tail [post]
    is left alone. *)
Lemma sweep_prefix (pre post : list A) :
  sweep update dead draw (length pre) (pre ++ post)
  = Some (survivors update dead pre ++ post,
          sweepDrawn update dead draw pre).
Proof.
  revert post. induction pre as [|a pre IH] using rev_ind; intros post.
  { reflexivity. }
  rewrite length_app, Nat.add_comm. cbn [length plus sweep].
  rewrite <- app_assoc. cbn [app].
  rewrite list_lookup_middle by reflexivity. cbn [mbind option_bind].
  unfold sweepDrawn. rewrite survivors_app.
  unfold survivors at 2 4. cbn [map List.filter].
  destruct (dead (update a)) eqn:Hdead; cbn [negb].
  - rewrite delete_middle, IH, !app_nil_r. reflexivity.
  - replace (length pre) with (length pre + 0) at 2 by lia.
    rewrite insert_app_r. cbn [insert list_insert].
    rewrite IH. cbn [mbind option_bind].
    rewrite <- app_assoc, rev_app_distr. reflexivity.
Qed.

Lemma sweep_spec (l : list A) :
  sweep update dead draw (length l) l
  = Some (survivors update dead l, sweepDrawn update dead draw l).
Proof.
  pose proof (sweep_prefix l []) as H. by rewrite !app_nil_r in H.
Qed.

End SweepFacts.

Lemma rippleLoop_sweep (n : nat) (rs : list Ripple.t) :
  rippleLoop n rs = sweep growRipple rippleDead drawRipple n rs.
Proof.
  revert rs. induction n as [|i IH]; intros rs; [reflexivity|].
  cbn [rippleLoop sweep]. destruct (rs !! i) as [r|]; [|reflexivity].
  cbn [mbind option_bind]. unfold rippleDead. by rewrite !IH.
Qed.

Lemma inkLoop_sweep (n : nat) (ps : list Particle.t) :
  inkLoop n ps = sweep dryInk inkDead drawInk n ps.
Proof.
  revert ps. induction n as [|i IH]; intros ps; [reflexivity|].
  cbn [inkLoop sweep]. destruct (ps !! i) as [p|]; [|reflexivity].
  cbn [mbind option_bind]. unfold inkDead. by rewrite !IH.
Qed.

Lemma rippleLoop_spec (rs : list Ripple.t) :
  rippleLoop (length rs) rs
  = Some (survivors growRipple rippleDead rs,
          sweepDrawn growRipple rippleDead drawRipple rs).
Proof. rewrite rippleLoop_sweep. apply sweep_spec. Qed.

Lemma inkLoop_spec (ps : list Particle.t) :
  inkLoop (length ps) ps
  = Some (survivors dryInk inkDead ps, sweepDrawn dryInk inkDead drawInk ps).
Proof. rewrite inkLoop_sweep. apply sweep_spec. Qed.

Lemma forEachDust_length (sin cos : number -> number) (t w h : number)
    (ps : list Particle.t) :
  length (forEachDust sin cos t w h ps).1 = length ps.
Proof.
  induction ps as [|p ps IH]; [reflexivity|]. cbn [forEachDust].
  destruct (forEachDust sin cos t w h ps) as [qs out]. cbn in *. by rewrite IH.
Qed.

Lemma forEachDust_map (sin cos : number -> number) (t w h : number)
    (ps : list Particle.t) :
  (forEachDust sin cos t w h ps).1 = map (fun p => wrap w h (drift sin cos t p)) ps.
Proof.
  induction ps as [|p ps IH]; [reflexivity|]. cbn [forEachDust].
  destruct (forEachDust sin cos t w h ps) as [qs out]. cbn in *. by rewrite IH.
Qed.

(** ** One frame on a ready surface *)

Lemma forEachDust_drawn (sin cos : number -> number) (t w h : number)
    (ps : list Particle.t) :
  (forEachDust sin cos t w h ps).2
  = concat (map (drawDust sin t)
              (map (fun p => wrap w h (drift sin cos t p)) ps)).
Proof.
  induction ps as [|p ps IH]; [reflexivity|]. cbn [forEachDust].
  destruct (forEachDust sin cos t w h ps) as [qs out]. cbn in *. by rewrite IH.
Qed.

(** The whole of a frame: the refs it leaves and, in order, what it draws. *)
Lemma animate_ready (sin cos : number -> number) (c : Canvas) (time : number)
    (rnd : Rand) (h : Z) (st : State) :
  let w := Z2F (width c) in
  let t := (time * 0.001)%float in
  let dust := map (fun p => wrap w (Z2F (height c)) (drift sin cos t p))
                (goldDust st) in
  animate sin cos (Ready c) time rnd h st
  = Some (mkFrame
            (mkState (incr (frameCount st)) (lerp (mouse st))
               (survivors dryInk inkDead (particles st))
               (survivors growRipple rippleDead (ripples st))
               dust (Some h))
            ((ClearRect 0 0 w (Z2F (height c))
              :: drawRicePaperTexture w (Z2F (height c)) rnd)
             ++ concat (map (fun layer =>
                               drawMountain sin cos (width c) (height c) layer
                                 t (Mouse.x (lerp (mouse st))))
                          LAYERS)
             ++ concat (map (drawDust sin t) dust)
             ++ sweepDrawn growRipple rippleDead drawRipple (ripples st)
             ++ sweepDrawn dryInk inkDead drawInk (particles st)
             ++ [ SetGlobalAlpha 1 ])
            true).
Proof.
  intros w t dust. subst dust. unfold animate.
  rewrite <- forEachDust_drawn, <- forEachDust_map.
  destruct (forEachDust _ _ _ _ _ (goldDust st)) as [dust' dustOut].
  rewrite rippleLoop_spec, inkLoop_spec. reflexivity.
Qed.

(** ** Ink trail: the per-frame update *)

(** C1, as stated, fails: a particle at (10, 10) with velocity (0.25, 0.25)
    is still at (10, 10) after the frame's update; its position has not
    advanced by its velocity. *)
Lemma ink_update_ignores_velocity :
  let p := Particle.mk 10 10 0.25 0.25 4 1 1 "#111" in
  exists p',
    inkLoop 1 [p] = Some ([p'], drawInk p')
    /\ Particle.x p' = 10%float /\ Particle.y p' = 10%float
    /\ Particle.x p' <> (Particle.x p + Particle.vx p)%float
    /\ Particle.y p' <> (Particle.y p + Particle.vy p)%float.
Proof.
  intros p. exists (dryInk p). split; [reflexivity|].
  repeat split; apply float_neq; reflexivity.
Qed.

(** C1, amended: one per-frame update takes 0.02 off the life of every
    ink-trail particle of the pool and multiplies its size by 0.98; position
    and velocity are left as they are (the velocity is never read).  The pool
    keeps, in order, the updated particles whose life is not [<= 0]. *)
Theorem ink_update_decays_in_place (ps : list Particle.t) :
  (exists out,
     inkLoop (length ps) ps
     = Some (List.filter (fun p => negb (Particle.life p <=? 0)%float)
               (map dryInk ps), out))
  /\ forall p : Particle.t,
       Particle.life (dryInk p) = (Particle.life p - 0.02)%float
       /\ Particle.size (dryInk p) = (Particle.size p * 0.98)%float
       /\ Particle.x (dryInk p) = Particle.x p
       /\ Particle.y (dryInk p) = Particle.y p
       /\ Particle.vx (dryInk p) = Particle.vx p
       /\ Particle.vy (dryInk p) = Particle.vy p.
Proof.
  split.
  - rewrite inkLoop_spec. eexists. reflexivity.
  - intros p. repeat split.
Qed.

(** ** Ink trail: the spawn throttle *)

(** C2, as stated, fails: before the first frame (frame counter 0) two
    successive move events both spawn a particle. *)
Lemma successive_moves_both_spawn :
  let win := {| innerWidth := 800; innerHeight := 600 |} in
  let rnd : Rand := fun _ => 0.5%float in
  let st0 := mounted win rnd 1 in
  let st1 := handleMouseMove win {| clientX := 100; clientY := 100 |} rnd st0 in
  let st2 := handleMouseMove win {| clientX := 101; clientY := 100 |} rnd st1 in
  length (particles st0) = 0
  /\ length (particles st1) = 1
  /\ length (particles st2) = 2.
Proof. repeat split. Qed.

Lemma handleMouseMove_frameCount win e rnd st :
  frameCount (handleMouseMove win e rnd st) = frameCount st.
Proof. reflexivity. Qed.

Lemma handleMouseMove_length win e rnd st :
  length (particles (handleMouseMove win e rnd st))
  = length (particles st) + (if Z.even (frameCount st) then 1 else 0).
Proof.
  unfold handleMouseMove. cbn [particles].
  rewrite Zmod_even. destruct (Z.even (frameCount st)); cbn.
  - by rewrite length_app.
  - lia.
Qed.

(** C2, amended: the throttle is counted per rendered frame, not per move
    event.  A move event spawns one particle when the frame counter is even
    and none when it is odd, and it leaves the counter alone: of the move
    events that arrive between two frames, all spawn or none does.  Only a
    frame on a ready surface advances the counter, by one. *)
Theorem moves_spawn_by_frame_parity (win : Window)
    (evs : list (MouseEvent * Rand)) (st : State) :
  frameCount (moves win evs st) = frameCount st
  /\ length (particles (moves win evs st))
     = length (particles st)
       + (if Z.even (frameCount st) then length evs else 0)
  /\ forall sin cos c time rnd h,
       frameCount <$> (state <$> animate sin cos (Ready c) time rnd h st)
       = Some (incr (frameCount st)).
Proof.
  split; [|split].
  - revert st. induction evs as [|[e r] evs IH]; intros st; [reflexivity|].
    cbn. unfold moves in IH. by rewrite IH.
  - revert st. induction evs as [|[e r] evs IH]; intros st.
    { cbn. destruct (Z.even _); lia. }
    cbn. unfold moves in IH. rewrite IH.
    rewrite handleMouseMove_frameCount, handleMouseMove_length.
    destruct (Z.even (frameCount st)); cbn; lia.
  - intros sin cos c time rnd h.
    rewrite animate_ready. reflexivity.
Qed.

(** ** A frame without a drawing surface *)

(** C3, as stated, fails: the frame that finds no canvas returns before it
    requests the next one, so the refresh that follows, with the surface
    ready, runs nothing: nothing is retried. *)
Lemma skipped_frame_is_not_retried :
  let win := {| innerWidth := 800; innerHeight := 600 |} in
  let rnd : Rand := fun _ => 0.5%float in
  let id : number -> number := fun a => a in
  let w0 := mount win rnd 1 in
  let w1 := mkWorld (refs w0) false in
  rescheduled <$> animate id id NoCanvas 16 rnd 2 (refs w0) = Some false
  /\ pending w0 = true
  /\ deliver id id (FrameDue NoCanvas 16 rnd 2) w0 = Some w1
  /\ deliver id id (FrameDue (Ready {| width := 800; height := 600 |}) 32 rnd 3) w1
     = Some w1.
Proof. repeat split. Qed.

Lemma play_not_pending sin cos (fs : list (Surface * number * Rand * Z))
    (st : State) :
  play sin cos (refreshes fs) (mkWorld st false) = Some (mkWorld st false).
Proof. induction fs as [|f fs IH]; [reflexivity|]. cbn. exact IH. Qed.

(** C3, amended: when the canvas or its 2D context is unavailable at a tick,
    the tick is a no-op: no pool, pointer or counter is changed, nothing is
    drawn, no error is raised.  That tick requests no further frame
    ([animate] returns before its [requestAnimationFrame] call): whatever
    display refreshes follow, none runs [animate] again. *)
Theorem unavailable_surface_skips_frame (sin cos : number -> number)
    (time : number) (rnd : Rand) (h : Z) (st : State) :
  animate sin cos NoCanvas time rnd h st = Some (mkFrame st [] false)
  /\ (forall c, animate sin cos (NoContext c) time rnd h st
                = Some (mkFrame st [] false))
  /\ forall fs,
       play sin cos (FrameDue NoCanvas time rnd h :: refreshes fs)
         (mkWorld st true) = Some (mkWorld st false)
       /\ forall c,
            play sin cos (FrameDue (NoContext c) time rnd h :: refreshes fs)
              (mkWorld st true) = Some (mkWorld st false).
Proof.
  split; [reflexivity|]. split; [reflexivity|].
  intros fs. split; [|intros c]; cbn; apply play_not_pending.
Qed.

(** ** Ripples *)

(** C4: a click appends one ripple of radius 0 at the click position; a
    frame adds 1.5 to the radius and takes 0.01 off the opacity of every
    ripple, and keeps exactly those whose opacity is not [<= 0].  For a click
    at (100, 100): after 14 frames the radius is 21, above the threshold 20,
    and the 14th frame draws the inner ring at radius 6 with half the outer
    ring's alpha, while the 13th frame (radius 19.5) draws no inner ring. *)
Theorem ripple_lifecycle :
  (forall e rnd st,
     exists r,
       ripples (handleClick e rnd st) = ripples st ++ [r]
       /\ Ripple.x r = clientX e /\ Ripple.y r = clientY e
       /\ Ripple.radius r = 0%float /\ Ripple.opacity r = 0.6%float)
  /\ (forall r,
        Ripple.radius (growRipple r) = (Ripple.radius r + 1.5)%float
        /\ Ripple.opacity (growRipple r) = (Ripple.opacity r - 0.01)%float)
  /\ (forall rs,
        exists out,
          rippleLoop (length rs) rs
          = Some (List.filter (fun r => negb (Ripple.opacity r <=? 0)%float)
                    (map growRipple rs), out))
  /\ forall (rnd : Rand) fc m ps dust req,
       exists r0 r14 r13,
         ripples (handleClick {| clientX := 100; clientY := 100 |} rnd
                    (mkState fc m ps [] dust req)) = [r0]
         /\ Ripple.radius r0 = 0%float
         /\ rippleFrames 13 [r0] = Some [r13]
         /\ rippleDrawnAt 13 [r0]
            = Some [ BeginPath; Arc 100 100 19.5 0 (PI * 2);
                     SetStrokeStyle (Color (Ripple.color r0));
                     SetLineWidth (2 + (1 - Ripple.opacity r13) * 10);
                     SetGlobalAlpha (Ripple.opacity r13); Stroke ]%float
         /\ rippleFrames 14 [r0] = Some [r14]
         /\ Ripple.radius r14 = 21%float
         /\ (20 <? Ripple.radius r14)%float = true
         /\ (Ripple.radius r14 - 15 = 6)%float
         /\ rippleDrawnAt 14 [r0]
            = Some [ BeginPath; Arc 100 100 21 0 (PI * 2);
                     SetStrokeStyle (Color (Ripple.color r0));
                     SetLineWidth (2 + (1 - Ripple.opacity r14) * 10);
                     SetGlobalAlpha (Ripple.opacity r14); Stroke;
                     BeginPath; Arc 100 100 6 0 (PI * 2);
                     SetStrokeStyle (Color (Ripple.color r0));
                     SetLineWidth 1;
                     SetGlobalAlpha (Ripple.opacity r14 * 0.5); Stroke ]%float.
Proof.
  split; [|split; [|split]].
  - intros e rnd st. eexists. split; [reflexivity|]. repeat split.
  - intros r. split; reflexivity.
  - intros rs. rewrite rippleLoop_spec. eexists. reflexivity.
  - intros rnd fc m ps dust req.
    pose (r0 := Ripple.mk 100 100 0 (100 + rnd 0%nat * 50)%float 0.6
                  (if (0.5 <? rnd 1%nat)%float then PALETTE.stoneGreen
                   else PALETTE.stoneBlue)).
    exists r0, (Nat.iter 14 growRipple r0), (Nat.iter 13 growRipple r0).
    repeat apply conj; vm_compute; reflexivity.
Qed.

(** ** Ink trail: ten frames *)

(** C5, as stated, fails: ten binary64 subtractions of 0.02 from 1.0 leave
    0.7999999999999998, the number just below 0.8. *)
Lemma ink_life_after_ten_frames_is_not_0_8 :
  let p := Particle.mk 100 100 0 0 4 1.0 1.0 "#111" in
  exists p10,
    inkFrames 10 [p] = Some [p10]
    /\ Particle.life p10 = 0.7999999999999998%float
    /\ Particle.life p10 <> 0.8%float.
Proof.
  intros p. exists (Nat.iter 10 dryInk p).
  split; [vm_compute; reflexivity|].
  split; [vm_compute; reflexivity|].
  apply float_neq. vm_compute. reflexivity.
Qed.

(** C5, amended: for an ink-trail particle spawned with life 1.0 and size 4,
    after exactly 10 per-frame updates its life is 0.7999999999999998, which
    is 0.8 up to binary64 rounding (less than 1e-15 away), its size is ten
    successive products by 0.98, 3.2682912275501868 (about 3.27), and it is
    still in the pool: its life is not [<= 0]. *)
Theorem ink_after_ten_frames (x y vx vy maxLife : number) (color : string) :
  let p := Particle.mk x y vx vy 4 1.0 maxLife color in
  exists p10,
    inkFrames 10 [p] = Some [p10]
    /\ Particle.life p10 = 0.7999999999999998%float
    /\ (abs (Particle.life p10 - 0.8) <? 1e-15)%float = true
    /\ Particle.size p10 = Nat.iter 10 (fun s => s * 0.98)%float 4%float
    /\ Particle.size p10 = 3.2682912275501868%float
    /\ (3.26 <? Particle.size p10)%float = true
    /\ (Particle.size p10 <? 3.28)%float = true
    /\ (Particle.life p10 <=? 0)%float = false
    /\ Particle.x p10 = x /\ Particle.y p10 = y.
Proof.
  intros p. exists (Nat.iter 10 dryInk p).
  repeat apply conj; vm_compute; reflexivity.
Qed.

(** ** Gold dust *)

Lemma initDust_length win rnd i n : length (initDust win rnd i n) = n.
Proof. revert i. induction n as [|n IH]; intros i; cbn; [|rewrite IH]; done. Qed.

Lemma sameDust_refl (p : Particle.t) : sameDust p p.
Proof. by repeat split. Qed.

Lemma sameDust_trans (p q r : Particle.t) :
  sameDust p q -> sameDust q r -> sameDust p r.
Proof. unfold sameDust. intuition congruence. Qed.

Lemma sameDust_step sin cos t w h (p : Particle.t) :
  sameDust p (wrap w h (drift sin cos t p)).
Proof. by repeat split. Qed.

Lemma Forall2_sameDust_refl (ps : list Particle.t) : Forall2 sameDust ps ps.
Proof. induction ps; constructor; auto using sameDust_refl. Qed.

Lemma Forall2_sameDust_trans (ps qs rs : list Particle.t) :
  Forall2 sameDust ps qs -> Forall2 sameDust qs rs -> Forall2 sameDust ps rs.
Proof.
  intros H. revert rs. induction H as [|p q ps qs Hpq _ IH]; intros rs Hrs.
  - by inversion Hrs.
  - inversion Hrs; subst. constructor; eauto using sameDust_trans.
Qed.

(** A handler call, whatever the event, succeeds and leaves the dust pool
    with the same particles, moved at most. *)
Lemma handle_dust sin cos (ev : Event) (st : State) :
  exists st', handle sin cos ev st = Some st'
              /\ Forall2 sameDust (goldDust st) (goldDust st').
Proof.
  destruct ev as [win e rnd | e rnd | s time rnd h]; cbn.
  - eexists. split; [reflexivity|]. apply Forall2_sameDust_refl.
  - eexists. split; [reflexivity|]. apply Forall2_sameDust_refl.
  - destruct s as [| c | c].
    + eexists. split; [reflexivity|]. apply Forall2_sameDust_refl.
    + eexists. split; [reflexivity|]. apply Forall2_sameDust_refl.
    + rewrite animate_ready.
      eexists. split; [reflexivity|]. cbn.
      induction (goldDust st); constructor; auto using sameDust_step.
Qed.

Lemma exec_dust sin cos (evs : list Event) (st : State) :
  exists st', exec sin cos evs st = Some st'
              /\ Forall2 sameDust (goldDust st) (goldDust st').
Proof.
  revert st. induction evs as [|ev evs IH]; intros st.
  - exists st. split; [reflexivity|]. apply Forall2_sameDust_refl.
  - destruct (handle_dust sin cos ev st) as (st1 & H1 & D1).
    destruct (IH st1) as (st' & H' & D').
    exists st'. cbn. rewrite H1. cbn. split; [exact H'|].
    eauto using Forall2_sameDust_trans.
Qed.

(** C6: the gold dust pool holds 40 particles once initialised, and still
    exactly 40 after any sequence of mouse moves, clicks and frames: the same
    particles in the same order, with their velocity, size, life and colour
    as initialised; only positions change. *)
Theorem gold_dust_population (sin cos : number -> number) (win : Window)
    (rnd : Rand) (h : Z) (evs : list Event) :
  length (goldDust (mounted win rnd h)) = 40
  /\ exists st,
       exec sin cos evs (mounted win rnd h) = Some st
       /\ length (goldDust st) = 40
       /\ Forall2 sameDust (goldDust (mounted win rnd h)) (goldDust st).
Proof.
  split; [apply initDust_length|].
  destruct (exec_dust sin cos evs (mounted win rnd h)) as (st & Hst & Hdust).
  exists st. split; [exact Hst|]. split; [|exact Hdust].
  apply Forall2_length in Hdust. rewrite <- Hdust. apply initDust_length.
Qed.

Lemma wrap_x (w h : number) (p : Particle.t) :
  Particle.x (wrap w h p)
  = (if w <? Particle.x p then 0
     else if Particle.x p <? 0 then w else Particle.x p)%float.
Proof. cbn. by destruct (w <? Particle.x p)%float. Qed.

Lemma wrap_y (w h : number) (p : Particle.t) :
  Particle.y (wrap w h p)
  = (if h <? Particle.y p then 0
     else if Particle.y p <? 0 then h else Particle.y p)%float.
Proof. cbn. by destruct (h <? Particle.y p)%float. Qed.

(** C7: for every gold-dust particle, with [p1] its state after the frame's
    float movement and [q] its state after the wrap: an x above the width
    becomes exactly 0, an x below 0 becomes exactly the width, any other x
    is kept; likewise y with the height.  Velocity, size and life are
    untouched and the pool keeps every particle: nothing is clamped, bounced
    or removed. *)
Theorem dust_wraps_around (sin cos : number -> number) (c : Canvas)
    (t : number) (p : Particle.t) :
  let w := Z2F (width c) in
  let h := Z2F (height c) in
  let p1 := drift sin cos t p in
  let q := wrap w h p1 in
  ((w <? Particle.x p1)%float = true -> Particle.x q = 0%float)
  /\ ((Particle.x p1 <? 0)%float = true -> Particle.x q = w)
  /\ ((w <? Particle.x p1)%float = false ->
      (Particle.x p1 <? 0)%float = false -> Particle.x q = Particle.x p1)
  /\ ((h <? Particle.y p1)%float = true -> Particle.y q = 0%float)
  /\ ((Particle.y p1 <? 0)%float = true -> Particle.y q = h)
  /\ ((h <? Particle.y p1)%float = false ->
      (Particle.y p1 <? 0)%float = false -> Particle.y q = Particle.y p1)
  /\ sameDust p q
  /\ forall ps,
       (forEachDust sin cos t w h ps).1
       = map (fun p => wrap w h (drift sin cos t p)) ps.
Proof.
  intros w h p1 q. subst q w h. rewrite wrap_x, wrap_y.
  split_and!.
  - by intros ->.
  - intros Hneg. by rewrite (Z2F_not_below_negative _ _ Hneg), Hneg.
  - by intros -> ->.
  - by intros ->.
  - intros Hneg. by rewrite (Z2F_not_below_negative _ _ Hneg), Hneg.
  - by intros -> ->.
  - apply sameDust_step.
  - apply forEachDust_map.
Qed.

Lemma dust_wraps_around_witness :
  let still : number -> number := fun _ => 0%float in
  let c := {| width := 800; height := 600 |} in
  let p := Particle.mk 801 (-1) 0.05 0.05 1.5 1 1 PALETTE.gold in
  let q := wrap (Z2F (width c)) (Z2F (height c)) (drift still still 0 p) in
  Particle.x q = 0%float /\ Particle.y q = 600%float.
Proof.
  intros still c p q.
  pose proof (dust_wraps_around still still c 0%float p)
    as (Hx & _ & _ & _ & Hy & _).
  split; [apply Hx | apply Hy]; reflexivity.
Defined.

(** ** Mountain layers *)

Section MountainFacts.

Variable sin cos : number -> number.
Variable width height : Z.
Variable layer : MountainLayerConfig.t.
Variable time parallaxX : number.

Let curve : Z -> number * number :=
  silhouette sin cos height layer time parallaxX.

Lemma samples_left (k : nat) :
  (width < 5 * Z.of_nat k)%Z ->
  Z.to_nat (width / 5 + 1 - Z.of_nat k) = 0.
Proof. intros Hk. Z.div_mod_to_equations. lia. Qed.

Lemma samples_more (k : nat) :
  (5 * Z.of_nat k <= width)%Z ->
  Z.to_nat (width / 5 + 1 - Z.of_nat k)
  = S (Z.to_nat (width / 5 + 1 - Z.of_nat (S k))).
Proof. intros Hk. Z.div_mod_to_equations. lia. Qed.

(** The fill loop, entered at the k-th sample, emits the remaining ones. *)
Lemma fillWave_from (n k : nat) :
  n = Z.to_nat (width / 5 + 1 - Z.of_nat k) ->
  fillWave sin cos width height layer time parallaxX (5 * Z.of_nat k)
  = map (fun j : nat => fillTo (curve (5 * Z.of_nat j)%Z)) (seq k n).
Proof using Type.
  revert k. induction n as [|n IH]; intros k Hn;
    rewrite fillWave_equation;
    destruct (5 * Z.of_nat k <=? width)%Z eqn:Hle.
  - apply Z.leb_le in Hle. rewrite samples_more in Hn by exact Hle. lia.
  - reflexivity.
  - apply Z.leb_le in Hle. rewrite samples_more in Hn by exact Hle.
    cbn [seq map]. f_equal.
    replace (5 * Z.of_nat k + 5)%Z with (5 * Z.of_nat (S k))%Z by lia.
    apply IH. lia.
  - apply Z.leb_gt in Hle. rewrite samples_left in Hn by exact Hle.
    discriminate.
Qed.

Lemma strokeWave_from (n k : nat) :
  n = Z.to_nat (width / 5 + 1 - Z.of_nat k) ->
  strokeWave sin cos width height layer time parallaxX (5 * Z.of_nat k)
  = map (fun j : nat =>
           strokeTo (5 * Z.of_nat j) (curve (5 * Z.of_nat j)%Z))
        (seq k n).
Proof using Type.
  revert k. induction n as [|n IH]; intros k Hn;
    rewrite strokeWave_equation;
    destruct (5 * Z.of_nat k <=? width)%Z eqn:Hle.
  - apply Z.leb_le in Hle. rewrite samples_more in Hn by exact Hle. lia.
  - reflexivity.
  - apply Z.leb_le in Hle. rewrite samples_more in Hn by exact Hle.
    assert (strokeWave sin cos width height layer time parallaxX
              (5 * Z.of_nat k + 5)
            = map (fun j : nat =>
                     strokeTo (5 * Z.of_nat j) (curve (5 * Z.of_nat j)%Z))
                  (seq (S k) n))
      as Hrest.
    { replace (5 * Z.of_nat k + 5)%Z with (5 * Z.of_nat (S k))%Z by lia.
      apply IH. lia. }
    cbn [seq map]. unfold strokeTo at 1.
    destruct (5 * Z.of_nat k =? 0)%Z; rewrite Hrest; reflexivity.
  - apply Z.leb_gt in Hle. rewrite samples_left in Hn by exact Hle.
    discriminate.
Qed.

Lemma fillWave_samples :
  fillWave sin cos width height layer time parallaxX 0
  = map (fun x => fillTo (curve x)) (sampleXs width).
Proof using Type.
  unfold sampleXs. rewrite map_map.
  apply (fillWave_from _ 0). cbn. f_equal. lia.
Qed.

Lemma strokeWave_samples :
  strokeWave sin cos width height layer time parallaxX 0
  = map (fun x => strokeTo x (curve x)) (sampleXs width).
Proof using Type.
  unfold sampleXs. rewrite map_map.
  apply (strokeWave_from _ 0). cbn. f_equal. lia.
Qed.

End MountainFacts.

Lemma omap_vertex_map {X : Type} (g : X -> Cmd) (pt : X -> number * number)
    (xs : list X) :
  (forall x, vertex (g x) = Some (pt x)) ->
  omap vertex (map g xs) = map pt xs.
Proof.
  intros Hg. induction xs as [|x xs IH]; [reflexivity|].
  cbn. by rewrite Hg, IH.
Qed.

(** C8: for the same width, height, layer, time and parallax, the stroke
    loop and the fill loop sample the silhouette at the same x, 0 to the
    width in steps of 5, and give each sample the same height
    [baseY - (y1 + y2 + y3)]: the fill's top edge is a [lineTo] per sample,
    the stroke a [moveTo] to the first and a [lineTo] to each other, so that
    both go through the same vertices.  Both are functions of these inputs
    alone. *)
Theorem stroke_traces_fill_top_edge (sin cos : number -> number)
    (w h : Z) (layer : MountainLayerConfig.t)
    (time parallaxX : number) :
  let fill := fillWave sin cos w h layer time parallaxX 0 in
  let stroke := strokeWave sin cos w h layer time parallaxX 0 in
  let curve := silhouette sin cos h layer time parallaxX in
  fill = map (fun x => fillTo (curve x)) (sampleXs w)
  /\ stroke = map (fun x => strokeTo x (curve x)) (sampleXs w)
  /\ omap vertex stroke = omap vertex fill
  /\ omap vertex fill = map curve (sampleXs w)
  /\ map fst (omap vertex fill) = map Z2F (sampleXs w)
  /\ map fst (omap vertex stroke) = map Z2F (sampleXs w)
  /\ (exists fillStyle,
       drawMountain sin cos w h layer time parallaxX
       = [ BeginPath; MoveTo 0 (Z2F h) ] ++ fill
         ++ [ LineTo (Z2F w) (Z2F h); ClosePath;
              SetFillStyle fillStyle;
              SetGlobalAlpha (MountainLayerConfig.opacity layer); Fill;
              SetGlobalAlpha 1; BeginPath ]
         ++ stroke
         ++ [ SetStrokeStyle (Color (MountainLayerConfig.strokeColor layer));
              SetLineWidth 1.5; Stroke ])
  /\ forall c frameTime rnd rid st,
       exists before after,
         drawn <$> animate sin cos (Ready c) frameTime rnd rid st
         = Some (before
                 ++ concat (map (fun l =>
                                   drawMountain sin cos (width c)
                                     (height c) l (frameTime * 0.001)
                                     (Mouse.x (lerp (mouse st))))
                              LAYERS)
                 ++ after).
Proof.
  intros fill stroke curve.
  assert (fill = map (fun x => fillTo (curve x)) (sampleXs w)) as Hfill
    by apply fillWave_samples.
  assert (stroke = map (fun x => strokeTo x (curve x)) (sampleXs w))
    as Hstroke by apply strokeWave_samples.
  assert (omap vertex fill = map curve (sampleXs w)) as Vfill.
  { rewrite Hfill. by apply omap_vertex_map. }
  assert (omap vertex stroke = map curve (sampleXs w)) as Vstroke.
  { rewrite Hstroke. apply omap_vertex_map.
    intros x. unfold strokeTo. destruct (x =? 0)%Z; by destruct (curve x). }
  split_and!; try done.
  - by rewrite Vstroke, Vfill.
  - rewrite Vfill, map_map. reflexivity.
  - rewrite Vstroke, map_map. reflexivity.
  - eexists. reflexivity.
  - intros c frameTime rnd rid st. rewrite animate_ready. cbn [fmap option_fmap option_map drawn].
    eexists _, _. reflexivity.
Qed.

(** ** Ripples never read [maxRadius] *)

Lemma survivors_forget (rs : list Ripple.t) :
  survivors growRipple rippleDead (map forgetMaxRadius rs)
  = map forgetMaxRadius (survivors growRipple rippleDead rs).
Proof.
  unfold survivors. induction rs as [|r rs IH]; [reflexivity|].
  cbn [map List.filter].
  change (rippleDead (growRipple (forgetMaxRadius r)))
    with (rippleDead (growRipple r)).
  destruct (rippleDead (growRipple r)); cbn [negb map]; by rewrite IH.
Qed.

Lemma sweepDrawn_forget (rs : list Ripple.t) :
  sweepDrawn growRipple rippleDead drawRipple (map forgetMaxRadius rs)
  = sweepDrawn growRipple rippleDead drawRipple rs.
Proof.
  unfold sweepDrawn. rewrite survivors_forget, <- map_rev, map_map.
  reflexivity.
Qed.

Lemma rippleLoop_forget (rs : list Ripple.t) :
  rippleLoop (length (map forgetMaxRadius rs)) (map forgetMaxRadius rs)
  = (fun ro => (map forgetMaxRadius ro.1, ro.2))
      <$> rippleLoop (length rs) rs.
Proof.
  rewrite !rippleLoop_spec, survivors_forget, sweepDrawn_forget. reflexivity.
Qed.

Lemma rippleFrames_forget (n : nat) (rs : list Ripple.t) :
  rippleFrames n (map forgetMaxRadius rs)
  = map forgetMaxRadius <$> rippleFrames n rs.
Proof.
  revert rs. induction n as [|n IH]; intros rs; [reflexivity|].
  cbn [rippleFrames]. rewrite rippleLoop_forget, rippleLoop_spec.
  cbn. apply IH.
Qed.

Lemma rippleDrawnAt_forget (n : nat) (rs : list Ripple.t) :
  rippleDrawnAt n (map forgetMaxRadius rs) = rippleDrawnAt n rs.
Proof.
  revert rs. induction n as [|n IH]; intros rs; [reflexivity|].
  cbn [rippleDrawnAt]. rewrite rippleLoop_forget, rippleLoop_spec.
  cbn. destruct n; [reflexivity|]. apply IH.
Qed.

Lemma animate_forget sin cos s time rnd h (st : State) :
  animate sin cos s time rnd h (forgetState st)
  = forgetFrame <$> animate sin cos s time rnd h st.
Proof.
  destruct s as [| c | c]; [reflexivity | reflexivity |].
  unfold animate. cbn [forgetState frameCount mouse particles ripples goldDust].
  destruct (forEachDust _ _ _ _ _ (goldDust st)) as [dust' dustOut].
  rewrite rippleLoop_forget, !rippleLoop_spec, inkLoop_spec. reflexivity.
Qed.

(** C10: a ripple's [maxRadius] is written at the click and never read.  The
    spawned opacity is 0.6 whatever the random draws.  Over ripple pools that
    agree on everything but [maxRadius], frame after frame, the radius and
    opacity trajectories, the frame in which each ripple is removed and
    what is drawn are the same; the same holds of a whole call of
    [animate]. *)
Theorem ripples_ignore_maxRadius :
  (forall e rnd st,
     exists r, ripples (handleClick e rnd st) = ripples st ++ [r]
               /\ Ripple.opacity r = 0.6%float)
  /\ (forall (rs1 rs2 : list Ripple.t) (n : nat),
        map forgetMaxRadius rs1 = map forgetMaxRadius rs2 ->
        map forgetMaxRadius <$> rippleFrames n rs1
        = map forgetMaxRadius <$> rippleFrames n rs2
        /\ length <$> rippleFrames n rs1 = length <$> rippleFrames n rs2
        /\ rippleDrawnAt n rs1 = rippleDrawnAt n rs2)
  /\ (forall sin cos s time rnd h (st1 st2 : State),
        forgetState st1 = forgetState st2 ->
        forgetFrame <$> animate sin cos s time rnd h st1
        = forgetFrame <$> animate sin cos s time rnd h st2)
  /\ forall r, growRipple (forgetMaxRadius r) = forgetMaxRadius (growRipple r)
               /\ drawRipple (forgetMaxRadius r) = drawRipple r
               /\ rippleDead (growRipple (forgetMaxRadius r))
                  = rippleDead (growRipple r).
Proof.
  split_and!.
  - intros e rnd st. eexists. split; reflexivity.
  - intros rs1 rs2 n Heq.
    assert (map forgetMaxRadius <$> rippleFrames n rs1
            = map forgetMaxRadius <$> rippleFrames n rs2) as Htraj
      by (by rewrite <- !rippleFrames_forget, Heq).
    split_and!.
    + exact Htraj.
    + apply (f_equal (fmap length)) in Htraj.
      rewrite <- !option_fmap_compose in Htraj.
      destruct (rippleFrames n rs1), (rippleFrames n rs2); cbn in *;
        try done.
      by rewrite !length_map in Htraj.
    + by rewrite <- (rippleDrawnAt_forget n rs1), Heq, rippleDrawnAt_forget.
  - intros sin cos s time rnd h st1 st2 Heq.
    by rewrite <- !animate_forget, Heq.
  - intros r. by split_and!.
Qed.

Lemma ripples_ignore_maxRadius_witness :
  let r1 := Ripple.mk 100 100 0 100 0.6 PALETTE.stoneBlue in
  let r2 := Ripple.mk 100 100 0 149 0.6 PALETTE.stoneBlue in
  rippleDrawnAt 30 [r1] = rippleDrawnAt 30 [r2]
  /\ length <$> rippleFrames 60 [r1] = length <$> rippleFrames 60 [r2].
Proof.
  intros r1 r2.
  pose proof (proj1 (proj2 ripples_ignore_maxRadius)) as H.
  split.
  - apply (H [r1] [r2] 30). reflexivity.
  - apply (H [r1] [r2] 60). reflexivity.
Defined.

(** ** Decay bounds the pools *)

Section GoneFacts.

Context {A : Type}.
Variable update : A -> A.
Variable dead : A -> bool.

Let gone : nat -> list A -> Prop := goneAll update dead.

Lemma goneWithin_S (k : nat) (a : A) :
  goneWithin update dead k a = true ->
  goneWithin update dead (S k) a = true.
Proof.
  revert a. induction k as [|k IH]; intros a Ha; [discriminate|].
  change (dead (update a) || goneWithin update dead k (update a) = true)
    in Ha.
  change (dead (update a) || goneWithin update dead (S k) (update a) = true).
  apply orb_true_iff in Ha as [Hd | Hg].
  - by rewrite Hd.
  - rewrite (IH _ Hg). apply orb_true_r.
Qed.

Lemma goneWithin_le (k k' : nat) (a : A) :
  k <= k' ->
  goneWithin update dead k a = true -> goneWithin update dead k' a = true.
Proof. induction 1; auto using goneWithin_S. Qed.

Lemma gone_zero (l : list A) : gone 0 l -> l = [].
Proof. destruct 1; [reflexivity | discriminate]. Qed.

(** A frame brings every entity one update closer to its removal. *)
Lemma survivors_gone (k : nat) (l : list A) :
  gone k l -> gone (k - 1) (survivors update dead l).
Proof.
  destruct k as [|k].
  { intros ->%gone_zero. constructor. }
  replace (S k - 1) with k by lia.
  unfold gone, goneAll, survivors.
  induction 1 as [|a l Ha _ IH]; [constructor|].
  cbn [map List.filter goneWithin] in *.
  destruct (dead (update a)); cbn [negb orb] in *; [exact IH|].
  by constructor.
Qed.

Lemma survivors_iter_nil (k : nat) (l : list A) :
  gone k l -> Nat.iter k (survivors update dead) l = [].
Proof.
  revert l. induction k as [|k IH]; intros l Hl.
  - by apply gone_zero.
  - rewrite Nat.iter_succ_r. apply IH.
    replace k with (S k - 1) by lia. by apply survivors_gone.
Qed.

End GoneFacts.

Lemma inkFrames_iter (n : nat) (ps : list Particle.t) :
  inkFrames n ps = Some (Nat.iter n (survivors dryInk inkDead) ps).
Proof.
  revert ps. induction n as [|n IH]; intros ps; [reflexivity|].
  cbn [inkFrames]. rewrite inkLoop_spec. cbn [mbind option_bind].
  by rewrite IH, Nat.iter_succ_r.
Qed.

Lemma rippleFrames_iter (n : nat) (rs : list Ripple.t) :
  rippleFrames n rs = Some (Nat.iter n (survivors growRipple rippleDead) rs).
Proof.
  revert rs. induction n as [|n IH]; intros rs; [reflexivity|].
  cbn [rippleFrames]. rewrite rippleLoop_spec. cbn [mbind option_bind].
  by rewrite IH, Nat.iter_succ_r.
Qed.

(** What the handlers push is gone within 50, respectively 60, frames. *)
Lemma spawned_ink_gone (x y vx vy size maxLife : number) (color : string) :
  goneWithin dryInk inkDead 50 (Particle.mk x y vx vy size 1.0 maxLife color)
  = true.
Proof. vm_compute. reflexivity. Qed.

Lemma spawned_ripple_gone (x y radius maxRadius : number) (color : string) :
  goneWithin growRipple rippleDead 60 (Ripple.mk x y radius maxRadius 0.6 color)
  = true.
Proof. vm_compute. reflexivity. Qed.


Lemma exec_app sin cos (evs1 evs2 : list Event) (st : State) :
  exec sin cos (evs1 ++ evs2) st
  = st' ← exec sin cos evs1 st; exec sin cos evs2 st'.
Proof.
  revert st. induction evs1 as [|ev evs1 IH]; intros st; [reflexivity|].
  cbn. destruct (handle sin cos ev st) as [st1|]; [apply IH | reflexivity].
Qed.

Lemma exec_total sin cos (evs : list Event) (st : State) :
  exists st', exec sin cos evs st = Some st'.
Proof. destruct (exec_dust sin cos evs st) as (st' & H & _). eauto. Qed.

Lemma count_cons (f : Event -> bool) (ev : Event) (evs : list Event) :
  count f (ev :: evs) = (if f ev then 1 else 0) + count f evs.
Proof. unfold count. cbn. by destruct (f ev). Qed.

(** A pool fed by one kind of event, a push at a time, and swept by every
    frame on a ready surface. *)
Section PoolBound.

Context {A : Type}.
Variable update : A -> A.
Variable dead : A -> bool.
Variable pool : State -> list A.
Variable feeds : Event -> bool.
Variable K : nat.
Variable sin cos : number -> number.

Hypothesis handle_pool : forall ev st st',
  handle sin cos ev st = Some st' ->
  exists spawned,
    pool st'
    = (if isReadyFrame ev then survivors update dead (pool st) else pool st)
      ++ spawned
    /\ length spawned <= (if feeds ev then 1 else 0)
    /\ goneAll update dead K spawned.

Lemma exec_pool (evs : list Event) :
  forall (k : nat) (old new : list A) (st st' : State),
    pool st = old ++ new ->
    goneAll update dead k old ->
    goneAll update dead K new ->
    exec sin cos evs st = Some st' ->
    exists old' new',
      pool st' = old' ++ new'
      /\ goneAll update dead (k - count isReadyFrame evs) old'
      /\ goneAll update dead K new'
      /\ length new' <= length new + count feeds evs.
Proof using handle_pool.
  induction evs as [|ev evs IH]; intros k old new st st' Hpool Hold Hnew Hex.
  { inversion Hex; subst. exists old, new.
    rewrite Nat.sub_0_r. split_and!; [done..|]. unfold count. cbn. lia. }
  cbn in Hex. destruct (handle sin cos ev st) as [st1|] eqn:Hev; [|done].
  cbn in Hex. rewrite !count_cons.
  destruct (handle_pool _ _ _ Hev) as (spawned & Hst1 & Hlen & Hsp).
  rewrite Hpool in Hst1.
  destruct (isReadyFrame ev).
  - rewrite survivors_app, <- app_assoc in Hst1.
    destruct (IH (k - 1) _ _ st1 st' Hst1) as (old' & new' & H1 & H2 & H3 & H4);
      [by apply survivors_gone | | exact Hex |].
    { apply Forall_app. split; [|exact Hsp].
      eapply Forall_impl; [apply (survivors_gone _ _ K), Hnew|].
      intros a. apply goneWithin_le. lia. }
    exists old', new'. split_and!; [done | | done |].
    + by replace (k - (1 + count isReadyFrame evs))
        with (k - 1 - count isReadyFrame evs) by lia.
    + rewrite length_app in H4.
      pose proof (survivors_length update dead new). lia.
  - rewrite <- app_assoc in Hst1.
    destruct (IH k _ _ st1 st' Hst1) as (old' & new' & H1 & H2 & H3 & H4);
      [done | | exact Hex |].
    { apply Forall_app. by split. }
    exists old', new'. split_and!; [done..|].
    rewrite length_app in H4. lia.
Qed.

(** Once [K] frames have swept the pool, it holds at most what was pushed
    meanwhile. *)
Lemma exec_pool_bound (evs : list Event) (st st' : State) :
  goneAll update dead K (pool st) ->
  exec sin cos evs st = Some st' ->
  goneAll update dead K (pool st')
  /\ (K <= count isReadyFrame evs -> length (pool st') <= count feeds evs).
Proof using handle_pool.
  intros Hst Hex.
  destruct (exec_pool evs K (pool st) [] st st')
    as (old' & new' & H1 & H2 & H3 & H4);
    [by rewrite app_nil_r | done | constructor | done |].
  split.
  - rewrite H1. apply Forall_app. split; [|done].
    eapply Forall_impl; [exact H2|]. intros a. apply goneWithin_le. lia.
  - intros HK. replace (K - count isReadyFrame evs) with 0 in H2 by lia.
    apply gone_zero in H2. subst old'. rewrite H1. cbn in *. lia.
Qed.

End PoolBound.

Lemma handle_particles sin cos (ev : Event) (st st' : State) :
  handle sin cos ev st = Some st' ->
  exists spawned,
    particles st'
    = (if isReadyFrame ev then survivors dryInk inkDead (particles st)
       else particles st) ++ spawned
    /\ length spawned <= (if isMove ev then 1 else 0)
    /\ goneAll dryInk inkDead 50 spawned.
Proof.
  destruct ev as [win e rnd | e rnd | s time rnd h]; cbn [handle].
  - intros [= <-]. unfold handleMouseMove. cbn [particles isReadyFrame isMove].
    destruct (_ =? 0)%Z.
    + eexists. split_and!; [reflexivity | cbn; lia |].
      constructor; [apply spawned_ink_gone | constructor].
    + exists []. rewrite app_nil_r. split_and!; [done | cbn; lia | constructor].
  - intros [= <-]. exists []. rewrite app_nil_r.
    split_and!; [done | cbn; lia | constructor].
  - destruct s as [| c | c].
    + intros [= <-]. exists []. rewrite app_nil_r.
      split_and!; [done | cbn; lia | constructor].
    + intros [= <-]. exists []. rewrite app_nil_r.
      split_and!; [done | cbn; lia | constructor].
    + rewrite animate_ready.
      intros [= <-]. exists []. rewrite app_nil_r.
      split_and!; [done | cbn; lia | constructor].
Qed.

Lemma handle_ripples sin cos (ev : Event) (st st' : State) :
  handle sin cos ev st = Some st' ->
  exists spawned,
    ripples st'
    = (if isReadyFrame ev then survivors growRipple rippleDead (ripples st)
       else ripples st) ++ spawned
    /\ length spawned <= (if isClick ev then 1 else 0)
    /\ goneAll growRipple rippleDead 60 spawned.
Proof.
  destruct ev as [win e rnd | e rnd | s time rnd h]; cbn [handle].
  - intros [= <-]. exists []. rewrite app_nil_r.
    split_and!; [done | cbn; lia | constructor].
  - intros [= <-]. eexists. split_and!; [reflexivity | cbn; lia |].
    constructor; [apply spawned_ripple_gone | constructor].
  - destruct s as [| c | c].
    + intros [= <-]. exists []. rewrite app_nil_r.
      split_and!; [done | cbn; lia | constructor].
    + intros [= <-]. exists []. rewrite app_nil_r.
      split_and!; [done | cbn; lia | constructor].
    + rewrite animate_ready.
      intros [= <-]. exists []. rewrite app_nil_r.
      split_and!; [done | cbn; lia | constructor].
Qed.

Lemma animate_total sin cos s time rnd h (st : State) :
  exists f, animate sin cos s time rnd h st = Some f.
Proof.
  destruct s as [| c | c]; [by eexists | by eexists |].
  rewrite animate_ready. by eexists.
Qed.

Lemma mounted_pools_gone win rnd h :
  goneAll dryInk inkDead 50 (particles (mounted win rnd h))
  /\ goneAll growRipple rippleDead 60 (ripples (mounted win rnd h)).
Proof. split; constructor. Qed.

(** C9: decay removes every entity after finitely many updates.  An
    ink-trail particle spawned with life 1.0 is still there after 49 updates
    and gone with the 50th; a ripple spawned with opacity 0.6 is still there
    after 59 and gone with the 60th; neither comes back.  A frame never
    fails, nor does any run of handlers.  In every run from mount, every
    particle in the ink pool is gone within 50 frames and every ripple within
    60; once 50
    frames have been rendered the ink pool holds at most as many particles as
    there were move events during them, and once 60 have been rendered the
    ripple pool holds at most as many ripples as there were clicks. *)
Theorem decay_bounds_pools :
  (forall x y vx vy size maxLife color n,
     let p := Particle.mk x y vx vy size 1.0 maxLife color in
     (exists p49, inkFrames 49 [p] = Some [p49])
     /\ inkFrames (50 + n) [p] = Some [])
  /\ (forall x y radius maxRadius color n,
        let r := Ripple.mk x y radius maxRadius 0.6 color in
        (exists r59, rippleFrames 59 [r] = Some [r59])
        /\ rippleFrames (60 + n) [r] = Some [])
  /\ (forall sin cos s time rnd h st,
        exists f, animate sin cos s time rnd h st = Some f)
  /\ forall sin cos win rnd h (evs1 evs2 : list Event),
       exists st,
         exec sin cos (evs1 ++ evs2) (mounted win rnd h) = Some st
         /\ goneAll dryInk inkDead 50 (particles st)
         /\ goneAll growRipple rippleDead 60 (ripples st)
         /\ (50 <= count isReadyFrame evs2 ->
             length (particles st) <= count isMove evs2)
         /\ (60 <= count isReadyFrame evs2 ->
             length (ripples st) <= count isClick evs2).
Proof.
  split_and!.
  - intros x y vx vy size maxLife color n p. split.
    + exists (Nat.iter 49 dryInk p). vm_compute. reflexivity.
    + rewrite inkFrames_iter. f_equal. apply survivors_iter_nil.
      constructor; [|constructor].
      apply (goneWithin_le _ _ 50); [lia | apply spawned_ink_gone].
  - intros x y radius maxRadius color n r. split.
    + exists (Nat.iter 59 growRipple r). vm_compute. reflexivity.
    + rewrite rippleFrames_iter. f_equal. apply survivors_iter_nil.
      constructor; [|constructor].
      apply (goneWithin_le _ _ 60); [lia | apply spawned_ripple_gone].
  - apply animate_total.
  - intros sin cos win rnd h evs1 evs2.
    destruct (exec_total sin cos evs1 (mounted win rnd h)) as [st1 H1].
    destruct (exec_total sin cos evs2 st1) as [st H2].
    exists st. rewrite exec_app, H1. cbn. split; [exact H2|].
    destruct (mounted_pools_gone win rnd h) as [Hink Hrip].
    pose proof (exec_pool_bound dryInk inkDead particles isMove 50 sin cos
                  (handle_particles sin cos) evs1 _ _ Hink H1) as [Hink1 _].
    pose proof (exec_pool_bound growRipple rippleDead ripples isClick 60
                  sin cos (handle_ripples sin cos) evs1 _ _ Hrip H1)
      as [Hrip1 _].
    pose proof (exec_pool_bound dryInk inkDead particles isMove 50 sin cos
                  (handle_particles sin cos) evs2 _ _ Hink1 H2) as [Hink2 Bink].
    pose proof (exec_pool_bound growRipple rippleDead ripples isClick 60
                  sin cos (handle_ripples sin cos) evs2 _ _ Hrip1 H2)
      as [Hrip2 Brip].
    by split_and!.
Qed.

Lemma decay_bounds_pools_witness :
  let id : number -> number := fun a => a in
  let win := {| innerWidth := 800; innerHeight := 600 |} in
  let rnd : Rand := fun _ => 0.5%float in
  let c := {| width := 10; height := 10 |} in
  let spawn :=
    [ MouseMoved win {| clientX := 5; clientY := 5 |} rnd;
      Clicked {| clientX := 5; clientY := 5 |} rnd ] in
  let frames := replicate 60 (FrameDue (Ready c) 16 rnd 2) in
  exists st,
    exec id id (spawn ++ frames) (mounted win rnd 1) = Some st
    /\ length (particles st) <= 0
    /\ length (ripples st) <= 0.
Proof.
  intros id win rnd c spawn frames.
  destruct (proj2 (proj2 (proj2 decay_bounds_pools)) id id win rnd 1%Z
              spawn frames) as (st & Hst & _ & _ & Hink & Hrip).
  exists st. split; [exact Hst|].
  split; [apply Hink | apply Hrip]; vm_compute; lia.
Defined.

(** ** The integers held in numbers *)

(** The frame counter: at 2^53 the binary64 [++] is absorbed, as [incr] has
    it, and below it is exact. *)
Lemma incr_matches_binary64 :
  (Z2F (2 ^ 53) + 1 = Z2F (incr (2 ^ 53)))%float
  /\ (Z2F (2 ^ 53 - 1) + 1 = Z2F (incr (2 ^ 53 - 1)))%float
  /\ (Z2F 0 + 1 = Z2F (incr 0))%float.
Proof. repeat split. Qed.

(** The loop counter of the mountain waves: for every sample position up to
    a canvas 65535 wide, the binary64 [x += 5] is the integer step. *)
Lemma wave_counter_exact :
  forallb (fun x => PrimFloat.Leibniz.eqb (Z2F x + 5)%float (Z2F (x + 5)))
    (sampleXs 65535) = true.
Proof. vm_compute. reflexivity. Qed.

Lemma sampleXs_12 : sampleXs 12 = [0; 5; 10]%Z.
Proof. reflexivity. Qed.

Lemma sampleXs_empty : sampleXs (-1) = [].
Proof. reflexivity. Qed.

(** A canvas 800 wide: 161 samples, the stroke starting with its [moveTo]. *)
Lemma stroke_800 (sin cos : number -> number) (layer : MountainLayerConfig.t)
    (time parallaxX : number) :
  length (strokeWave sin cos 800 600 layer time parallaxX 0) = 161
  /\ exists y rest,
       strokeWave sin cos 800 600 layer time parallaxX 0 = MoveTo 0 y :: rest
       /\ Forall (fun c => exists a b, c = LineTo a b) rest.
Proof.
  rewrite strokeWave_samples.
  split; [reflexivity|].
  eexists _, _. split; [reflexivity|].
  repeat (constructor; [by eexists _, _|]). constructor.
Qed.

(** * Further properties of the frame loop *)

(** ** Invariants of runs *)

Lemma exec_invariant sin cos (P : State -> Prop) :
  (forall ev st st', P st -> handle sin cos ev st = Some st' -> P st') ->
  forall evs st st', P st -> exec sin cos evs st = Some st' -> P st'.
Proof.
  intros Hstep evs. induction evs as [|ev evs IH]; intros st st' Hst Hex.
  - by inversion Hex; subst.
  - cbn in Hex. destruct (handle sin cos ev st) as [st1|] eqn:Hev; [|done].
    eauto.
Qed.

Lemma Forall_survivors {A : Type} (update : A -> A) (dead : A -> bool)
    (P : A -> Prop) (l : list A) :
  (forall a, P a -> dead (update a) = false -> P (update a)) ->
  Forall P l -> Forall P (survivors update dead l).
Proof.
  intros Hstep. unfold survivors. induction 1 as [|a l Ha _ IH]; [constructor|].
  cbn [map List.filter]. destruct (dead (update a)) eqn:Hd; cbn [negb]; auto.
Qed.

Lemma forallb_below (f : nat -> bool) (n k : nat) :
  forallb f (seq 0 n) = true -> k < n -> f k = true.
Proof.
  intros Hall Hk. rewrite forallb_forall in Hall. apply Hall.
  apply in_seq. lia.
Qed.

(** ** Ink trail: the life of a particle *)

Lemma lifeAt_50_dead : (lifeAt 50 <=? 0)%float = true.
Proof. vm_compute. reflexivity. Qed.

Lemma lifeAt_bounds (k : nat) :
  k <= 49 ->
  (0 <? lifeAt k)%float = true /\ (lifeAt k <=? 1)%float = true
  /\ (lifeAt k * 0.6 <=? 0.6)%float = true
  /\ (lifeAt (S k) <? lifeAt k)%float = true.
Proof.
  intros Hk.
  assert (forallb (fun k => (0 <? lifeAt k)%float && (lifeAt k <=? 1)%float
                            && (lifeAt k * 0.6 <=? 0.6)%float
                            && (lifeAt (S k) <? lifeAt k)%float)
            (seq 0 50) = true) as Hall by (vm_compute; reflexivity).
  apply (forallb_below _ _ k) in Hall; [|lia].
  by repeat (apply andb_prop in Hall as [Hall ?]).
Qed.

Lemma dryInk_aged (p : Particle.t) :
  inkAged p -> inkDead (dryInk p) = false -> inkAged (dryInk p).
Proof.
  intros (k & Hk & Hlife) Halive.
  assert (Particle.life (dryInk p) = lifeAt (S k)) as Hnext
    by (cbn; by rewrite Hlife).
  exists (S k). split; [|exact Hnext].
  destruct (decide (k = 49)) as [-> | Hne]; [|lia].
  unfold inkDead in Halive. rewrite Hnext, lifeAt_50_dead in Halive. done.
Qed.

Lemma handle_inkAged sin cos (ev : Event) (st st' : State) :
  Forall inkAged (particles st) ->
  handle sin cos ev st = Some st' ->
  Forall inkAged (particles st').
Proof.
  intros Hst Hev.
  destruct ev as [win e rnd | e rnd | s time rnd h]; cbn [handle] in Hev.
  - injection Hev as <-. unfold handleMouseMove. cbn [particles].
    destruct (frameCount st mod 2 =? 0)%Z; [|done].
    apply Forall_app. split; [done|].
    constructor; [|constructor]. exists 0. split; [lia | reflexivity].
  - injection Hev as <-. done.
  - destruct s as [| c | c].
    + injection Hev as <-. done.
    + injection Hev as <-. done.
    + rewrite animate_ready in Hev. injection Hev as <-. cbn [particles].
      apply Forall_survivors; [apply dryInk_aged | done].
Qed.

(** X1: in every state a run of handlers reaches from mount, every ink
    particle of the pool is 1.0 less at most 49 decrements of 0.02: its life
    is above 0 and at most 1, the alpha it is drawn with ([life * 0.6]) is at
    most 0.6, and the next update lowers its life strictly. *)
Theorem ink_life_in_unit_interval (sin cos : number -> number) (win : Window)
    (rnd : Rand) (h : Z) (evs : list Event) :
  exists st,
    exec sin cos evs (mounted win rnd h) = Some st
    /\ Forall (fun p =>
                 inkAged p
                 /\ (0 <? Particle.life p)%float = true
                 /\ (Particle.life p <=? 1)%float = true
                 /\ (Particle.life p * 0.6 <=? 0.6)%float = true
                 /\ (Particle.life (dryInk p) <? Particle.life p)%float = true)
              (particles st).
Proof.
  destruct (exec_total sin cos evs (mounted win rnd h)) as [st Hst].
  exists st. split; [exact Hst|].
  assert (Forall inkAged (particles st)) as Haged.
  { apply (exec_invariant sin cos (fun s => Forall inkAged (particles s))
             (handle_inkAged sin cos) evs (mounted win rnd h) st);
      [constructor | exact Hst]. }
  eapply Forall_impl; [exact Haged|].
  intros p (k & Hk & Hlife). split; [by exists k|].
  destruct (lifeAt_bounds k Hk) as (H0 & H1 & Ha & Hd).
  cbn [dryInk Particle.life]. rewrite Hlife. by split_and!.
Qed.

(** ** Ripples: radius, opacity and ring width *)

Lemma opacityAt_60_dead : (opacityAt 60 <=? 0)%float = true.
Proof. vm_compute. reflexivity. Qed.

Lemma rippleAt_bounds (k : nat) :
  k <= 59 ->
  (0 <? opacityAt k)%float = true /\ (opacityAt k <=? 0.6)%float = true
  /\ (0 <=? radiusAt k)%float = true /\ (radiusAt k <=? 88.5)%float = true
  /\ (opacityAt (S k) <? opacityAt k)%float = true
  /\ (radiusAt k <? radiusAt (S k))%float = true
  /\ (2 + (1 - opacityAt k) * 10 <? 2 + (1 - opacityAt (S k)) * 10)%float
     = true.
Proof.
  intros Hk.
  assert (forallb (fun k =>
                     (0 <? opacityAt k)%float && (opacityAt k <=? 0.6)%float
                     && (0 <=? radiusAt k)%float && (radiusAt k <=? 88.5)%float
                     && (opacityAt (S k) <? opacityAt k)%float
                     && (radiusAt k <? radiusAt (S k))%float
                     && (2 + (1 - opacityAt k) * 10
                         <? 2 + (1 - opacityAt (S k)) * 10)%float)
            (seq 0 60) = true) as Hall by (vm_compute; reflexivity).
  apply (forallb_below _ _ k) in Hall; [|lia].
  by repeat (apply andb_prop in Hall as [Hall ?]).
Qed.

Lemma growRipple_aged (r : Ripple.t) :
  rippleAged r -> rippleDead (growRipple r) = false -> rippleAged (growRipple r).
Proof.
  intros (k & Hk & Hop & Hrad) Halive.
  assert (Ripple.opacity (growRipple r) = opacityAt (S k)) as Hnext
    by (cbn; by rewrite Hop).
  assert (Ripple.radius (growRipple r) = radiusAt (S k)) as Hgrown.
  { change (radiusAt (S k)) with (radiusAt k + 1.5)%float.
    cbn [growRipple Ripple.radius]. by rewrite Hrad. }
  exists (S k). split_and!; [| exact Hnext | exact Hgrown].
  destruct (decide (k = 59)) as [-> | Hne]; [|lia].
  unfold rippleDead in Halive. rewrite Hnext, opacityAt_60_dead in Halive. done.
Qed.

Lemma handle_rippleAged sin cos (ev : Event) (st st' : State) :
  Forall rippleAged (ripples st) ->
  handle sin cos ev st = Some st' ->
  Forall rippleAged (ripples st').
Proof.
  intros Hst Hev.
  destruct ev as [win e rnd | e rnd | s time rnd h]; cbn [handle] in Hev.
  - injection Hev as <-. done.
  - injection Hev as <-. cbn [handleClick ripples].
    apply Forall_app. split; [done|].
    constructor; [|constructor]. exists 0.
    split_and!; [lia | reflexivity | reflexivity].
  - destruct s as [| c | c].
    + injection Hev as <-. done.
    + injection Hev as <-. done.
    + rewrite animate_ready in Hev. injection Hev as <-. cbn [ripples].
      apply Forall_survivors; [apply growRipple_aged | done].
Qed.

(** X2: in every state a run of handlers reaches from mount, every ripple of
    the pool is at most 59 updates old: its opacity is above 0 and at most
    0.6, its radius is between 0 and 88.5 (below 100, the least [maxRadius]
    a click can draw), and its next update grows the radius, lowers the
    opacity and widens the stroke of the outer ring. *)
Theorem ripple_grows_within_bounds (sin cos : number -> number) (win : Window)
    (rnd : Rand) (h : Z) (evs : list Event) :
  exists st,
    exec sin cos evs (mounted win rnd h) = Some st
    /\ Forall (fun r =>
                 rippleAged r
                 /\ (0 <? Ripple.opacity r)%float = true
                 /\ (Ripple.opacity r <=? 0.6)%float = true
                 /\ (0 <=? Ripple.radius r)%float = true
                 /\ (Ripple.radius r <=? 88.5)%float = true
                 /\ (Ripple.opacity (growRipple r) <? Ripple.opacity r)%float
                    = true
                 /\ (Ripple.radius r <? Ripple.radius (growRipple r))%float
                    = true
                 /\ (ringWidth r <? ringWidth (growRipple r))%float = true)
              (ripples st).
Proof.
  destruct (exec_total sin cos evs (mounted win rnd h)) as [st Hst].
  exists st. split; [exact Hst|].
  assert (Forall rippleAged (ripples st)) as Haged.
  { apply (exec_invariant sin cos (fun s => Forall rippleAged (ripples s))
             (handle_rippleAged sin cos) evs (mounted win rnd h) st);
      [constructor | exact Hst]. }
  eapply Forall_impl; [exact Haged|].
  intros r (k & Hk & Hop & Hrad). split; [by exists k|].
  destruct (rippleAt_bounds k Hk) as (H0 & H1 & H2 & H3 & H4 & H5 & H6).
  unfold ringWidth. cbn [growRipple Ripple.opacity Ripple.radius].
  rewrite Hop, Hrad. by split_and!.
Qed.

(** ** Gold dust: the wrap keeps the pool on the canvas *)

Lemma SFltb_irrefl (x : spec_float) : SFltb x x = false.
Proof.
  destruct x as [s|[]| |[] m e]; try reflexivity;
    unfold SFltb, SFcompare; rewrite Z.compare_refl, Pos.compare_cont_refl;
    reflexivity.
Qed.

Lemma ltb_irrefl (x : number) : (x <? x)%float = false.
Proof. rewrite FloatAxioms.ltb_spec. apply SFltb_irrefl. Qed.

Lemma Z2F_not_below_zero (z : Z) : (Z2F z <? 0)%float = false.
Proof.
  rewrite FloatAxioms.ltb_spec. change (Prim2SF 0) with (S754_zero false).
  destruct (Z2F_sign z) as [-> | [-> | [-> | (m & e & ->)]]]; reflexivity.
Qed.

Lemma wrap_onCanvas (c : Canvas) (p : Particle.t) :
  onCanvas c (wrap (Z2F (width c)) (Z2F (height c)) p).
Proof.
  unfold onCanvas. rewrite wrap_x, wrap_y.
  assert (forall (d : Z) (v : number),
            let v' := (if Z2F d <? v then 0
                       else if v <? 0 then Z2F d else v)%float in
            (Z2F d <? v')%float = false /\ (v' <? 0)%float = false) as Hax.
  { intros d v. cbn zeta.
    destruct (Z2F d <? v)%float eqn:Hhi.
    - split; [apply Z2F_not_below_zero | reflexivity].
    - destruct (v <? 0)%float eqn:Hlo.
      + split; [apply ltb_irrefl | apply Z2F_not_below_zero].
      + by split. }
  destruct (Hax (width c) (Particle.x p)), (Hax (height c) (Particle.y p)).
  by split_and!.
Qed.

(** X3: a frame on a ready surface leaves every gold-dust particle on the
    canvas it was drawn to: its x is neither above the width nor below 0, its
    y neither above the height nor below 0, wherever the particle was before
    (a canvas resized since the last frame included). *)
Theorem dust_stays_on_canvas (sin cos : number -> number) (c : Canvas)
    (time : number) (rnd : Rand) (h : Z) (st : State) :
  exists f,
    animate sin cos (Ready c) time rnd h st = Some f
    /\ length (goldDust (state f)) = length (goldDust st)
    /\ Forall (onCanvas c) (goldDust (state f)).
Proof.
  rewrite animate_ready. eexists. split; [reflexivity|].
  cbn [state goldDust]. split; [by rewrite length_map|].
  apply Forall_map, Forall_forall. intros p _. apply wrap_onCanvas.
Qed.

(** ** The frame counter *)

Lemma handle_frameCount sin cos (ev : Event) (st st' : State) :
  handle sin cos ev st = Some st' ->
  frameCount st'
  = if isReadyFrame ev then incr (frameCount st) else frameCount st.
Proof.
  destruct ev as [win e rnd | e rnd | s time rnd h]; cbn [handle].
  - by intros [= <-].
  - by intros [= <-].
  - destruct s as [| c | c]; [by intros [= <-] | by intros [= <-] |].
    rewrite animate_ready. by intros [= <-].
Qed.

Lemma exec_frameCount sin cos (evs : list Event) (st st' : State) :
  (0 <= frameCount st <= 2 ^ 53)%Z ->
  exec sin cos evs st = Some st' ->
  frameCount st'
  = Z.min (frameCount st + Z.of_nat (count isReadyFrame evs)) (2 ^ 53).
Proof.
  revert st. induction evs as [|ev evs IH]; intros st Hfc Hex.
  - inversion Hex; subst. unfold count. cbn. lia.
  - cbn in Hex. destruct (handle sin cos ev st) as [st1|] eqn:Hev; [|done].
    cbn in Hex. pose proof (handle_frameCount _ _ _ _ _ Hev) as H1.
    rewrite count_cons. unfold incr in H1.
    set (M := (2 ^ 53)%Z) in *.
    assert (0 <= frameCount st1 <= M
            /\ Z.min (frameCount st1 + Z.of_nat (count isReadyFrame evs)) M
               = Z.min (frameCount st
                        + Z.of_nat ((if isReadyFrame ev then 1 else 0)
                                    + count isReadyFrame evs)) M)%Z
      as [Hfc1 <-].
    { destruct (isReadyFrame ev);
        [destruct (Z.ltb_spec (frameCount st) M)|];
        cbv beta iota in H1; rewrite H1; clearbody M; split; lia. }
    by apply IH.
Qed.

(** X4: in every run of handlers from mount the frame counter is the number
    of frames rendered on a ready surface so far (capped at 2^53, where a
    number stops counting); mouse moves, clicks and skipped frames leave it
    alone.  So the next move event spawns a particle exactly when that number
    is even. *)
Theorem frame_counter_counts_rendered_frames (sin cos : number -> number)
    (win : Window) (rnd : Rand) (h : Z) (evs : list Event) :
  exists st,
    exec sin cos evs (mounted win rnd h) = Some st
    /\ frameCount st
       = Z.min (Z.of_nat (count isReadyFrame evs)) (2 ^ 53)
    /\ forall win' e rnd',
         length (particles (handleMouseMove win' e rnd' st))
         = length (particles st)
           + (if Z.even (Z.min (Z.of_nat (count isReadyFrame evs)) (2 ^ 53))
              then 1 else 0).
Proof.
  destruct (exec_total sin cos evs (mounted win rnd h)) as [st Hst].
  exists st. split; [exact Hst|].
  assert (0 <= frameCount (mounted win rnd h) <= 2 ^ 53)%Z as H0
    by (cbn; lia).
  pose proof (exec_frameCount sin cos evs _ _ H0 Hst) as Hfc.
  cbn [mounted frameCount] in Hfc. rewrite Z.add_0_l in Hfc.
  split; [exact Hfc|].
  intros win' e rnd'. by rewrite handleMouseMove_length, Hfc.
Qed.

(** ** The pools do not read one another *)

Section Independence.

Context {X : Type}.
Variable sin cos : number -> number.
Variable view : State -> X.
Variable ignored : Event -> bool.

Hypothesis view_step : forall ev st1 st2,
  view st1 = view st2 ->
  view <$> handle sin cos ev st1 = view <$> handle sin cos ev st2.

Hypothesis view_ignored : forall ev st,
  ignored ev = true -> view <$> handle sin cos ev st = Some (view st).

(** What a run leaves in the view is what the run without the ignored
    events leaves in it. *)
Lemma exec_view_filter (evs : list Event) :
  forall st1 st2,
    view st1 = view st2 ->
    view <$> exec sin cos evs st1
    = view <$> exec sin cos (List.filter (fun ev => negb (ignored ev)) evs) st2.
Proof using view_step view_ignored.
  induction evs as [|ev evs IH]; intros st1 st2 Hv; [cbn; by rewrite Hv|].
  cbn [exec List.filter]. destruct (ignored ev) eqn:Hig; cbn [negb].
  - pose proof (view_ignored ev st1 Hig) as H1.
    destruct (handle sin cos ev st1) as [st1'|]; [|done].
    cbn in H1. injection H1 as H1. cbn. apply IH. congruence.
  - cbn [exec]. pose proof (view_step ev st1 st2 Hv) as H1.
    destruct (handle sin cos ev st1) as [st1'|],
             (handle sin cos ev st2) as [st2'|]; try done.
    cbn in H1. injection H1 as H1. cbn. by apply IH.
Qed.

End Independence.

Lemma ripples_step sin cos ev st1 st2 :
  ripples st1 = ripples st2 ->
  ripples <$> handle sin cos ev st1 = ripples <$> handle sin cos ev st2.
Proof.
  intros Hr. destruct ev as [win e rnd | e rnd | [| c | c] time rnd h];
    cbn [handle]; rewrite ?animate_ready; cbn; by rewrite Hr.
Qed.

Lemma ink_step sin cos ev st1 st2 :
  (frameCount st1, particles st1) = (frameCount st2, particles st2) ->
  (fun s => (frameCount s, particles s)) <$> handle sin cos ev st1
  = (fun s => (frameCount s, particles s)) <$> handle sin cos ev st2.
Proof.
  intros [= Hfc Hps]. destruct ev as [win e rnd | e rnd | [| c | c] time rnd h];
    cbn [handle]; rewrite ?animate_ready; cbn; by rewrite Hfc, Hps.
Qed.

Lemma dust_step sin cos ev st1 st2 :
  goldDust st1 = goldDust st2 ->
  goldDust <$> handle sin cos ev st1 = goldDust <$> handle sin cos ev st2.
Proof.
  intros Hd. destruct ev as [win e rnd | e rnd | [| c | c] time rnd h];
    cbn [handle]; rewrite ?animate_ready; cbn; by rewrite Hd.
Qed.

Lemma mouse_step sin cos ev st1 st2 :
  mouse st1 = mouse st2 ->
  mouse <$> handle sin cos ev st1 = mouse <$> handle sin cos ev st2.
Proof.
  intros Hm. destruct ev as [win e rnd | e rnd | [| c | c] time rnd h];
    cbn [handle]; rewrite ?animate_ready; cbn; by rewrite Hm.
Qed.

(** X5: the pools do not read one another.  After any run of handlers, the
    ripple pool is what the run without its mouse moves leaves; the ink pool
    and the frame counter, and the pointer state, are what the run without
    its clicks leaves; the gold dust is what the frames alone leave. *)
Theorem pools_are_independent (sin cos : number -> number)
    (evs : list Event) (st : State) :
  ripples <$> exec sin cos evs st
  = ripples <$> exec sin cos (List.filter (fun ev => negb (isMove ev)) evs) st
  /\ (fun s => (frameCount s, particles s)) <$> exec sin cos evs st
     = (fun s => (frameCount s, particles s))
         <$> exec sin cos (List.filter (fun ev => negb (isClick ev)) evs) st
  /\ mouse <$> exec sin cos evs st
     = mouse <$> exec sin cos (List.filter (fun ev => negb (isClick ev)) evs) st
  /\ goldDust <$> exec sin cos evs st
     = goldDust
         <$> exec sin cos (List.filter (fun ev => negb (isInput ev)) evs) st.
Proof.
  split_and!.
  - apply exec_view_filter; [apply ripples_step | | done].
    intros [win e rnd | e rnd | s time rnd h] s0; by cbn.
  - apply exec_view_filter; [apply ink_step | | done].
    intros [win e rnd | e rnd | s time rnd h] s0; by cbn.
  - apply exec_view_filter; [apply mouse_step | | done].
    intros [win e rnd | e rnd | s time rnd h] s0; by cbn.
  - apply exec_view_filter; [apply dust_step | | done].
    intros [win e rnd | e rnd | s time rnd h] s0; by cbn.
Qed.

(** ** The pointer *)

Lemma handle_target sin cos (ev : Event) (st st' : State) :
  handle sin cos ev st = Some st' ->
  targetIn st'
  = match ev with
    | MouseMoved win e _ => targetOf (win, e)
    | _ => targetIn st
    end.
Proof.
  destruct ev as [win e rnd | e rnd | [| c | c] time rnd h]; cbn [handle];
    rewrite ?animate_ready; by intros [= <-].
Qed.

Lemma exec_target sin cos (evs : list Event) (st st' : State) :
  exec sin cos evs st = Some st' ->
  targetIn st'
  = match lastMove evs with Some m => targetOf m | None => targetIn st end.
Proof.
  revert st. induction evs as [|ev evs IH]; intros st Hex.
  - by inversion Hex.
  - cbn in Hex. destruct (handle sin cos ev st) as [st1|] eqn:Hev; [|done].
    cbn in Hex. rewrite (IH _ Hex). apply handle_target in Hev.
    destruct ev; cbn [lastMove]; destruct (lastMove evs); by rewrite ?Hev.
Qed.

Lemma exec_smoothed sin cos (evs : list Event) (st st' : State) :
  exec sin cos (List.filter (fun ev => negb (isReadyFrame ev)) evs) st
  = Some st' ->
  smoothedIn st' = smoothedIn st.
Proof.
  revert st. induction evs as [|ev evs IH]; intros st Hex.
  - by inversion Hex.
  - cbn [List.filter] in Hex.
    destruct ev as [win e rnd | e rnd | [| c | c] time rnd h];
      cbn in Hex; by rewrite (IH _ Hex).
Qed.

(** X6: after any run of handlers the parallax target is where the last
    mouse move put it, the pointer relative to the centre of the viewport
    (or where it was, if the run has no move); clicks and frames never move
    it.  The smoothed position only changes in frames drawn on a ready
    surface: the moves, clicks and skipped frames of a run leave it where it
    was. *)
Theorem pointer_target_follows_last_move (sin cos : number -> number)
    (evs : list Event) (st : State) :
  (exists st',
     exec sin cos evs st = Some st'
     /\ targetIn st'
        = match lastMove evs with
          | Some m => targetOf m
          | None => targetIn st
          end)
  /\ exists st',
       exec sin cos (List.filter (fun ev => negb (isReadyFrame ev)) evs) st
       = Some st'
       /\ smoothedIn st' = smoothedIn st.
Proof.
  split.
  - destruct (exec_total sin cos evs st) as [st' Hst].
    exists st'. split; [exact Hst | by apply (exec_target sin cos)].
  - destruct (exec_total sin cos
                (List.filter (fun ev => negb (isReadyFrame ev)) evs) st)
      as [st' Hst].
    exists st'. split; [exact Hst | by apply (exec_smoothed sin cos evs)].
Qed.

(** ** The alpha the layers are painted with *)

Lemma paints_app (a : number) (l1 l2 : list Cmd) :
  paints a (l1 ++ l2) = paints a l1 ++ paints (alphaAfter a l1) l2.
Proof.
  revert a. induction l1 as [|c l1 IH]; intros a; [reflexivity|].
  destruct c; cbn; by rewrite IH.
Qed.

Lemma alphaAfter_app (a : number) (l1 l2 : list Cmd) :
  alphaAfter a (l1 ++ l2) = alphaAfter (alphaAfter a l1) l2.
Proof.
  revert a. induction l1 as [|c l1 IH]; intros a; [reflexivity|].
  destruct c; cbn; by rewrite IH.
Qed.

Lemma pathOnly_silent (a : number) (l : list Cmd) :
  forallb pathOnly l = true -> paints a l = [] /\ alphaAfter a l = a.
Proof.
  induction l as [|c l IH]; [done|].
  cbn [forallb]. intros [Hc Hl]%andb_prop. destruct c; try done; by apply IH.
Qed.

Lemma rectOrStyle_paints (a : number) (l : list Cmd) :
  forallb rectOrStyle l = true ->
  paints a l = map (fun c => (c, a)) (List.filter isRect l)
  /\ alphaAfter a l = a.
Proof.
  induction l as [|c l IH]; [done|].
  cbn [forallb]. intros [Hc Hl]%andb_prop.
  destruct (IH Hl) as [IHp IHa]. destruct c; try done; cbn; by rewrite ?IHp.
Qed.

Lemma forallb_map_const {X : Type} (f : Cmd -> bool) (g : X -> Cmd)
    (l : list X) :
  (forall x, f (g x) = true) -> forallb f (map g l) = true.
Proof. intros Hg. induction l as [|x l IH]; cbn; by rewrite ?Hg, ?IH. Qed.

Lemma fillWave_pathOnly sin cos w h layer time parallaxX :
  forallb pathOnly (fillWave sin cos w h layer time parallaxX 0) = true.
Proof. rewrite fillWave_samples. by apply forallb_map_const. Qed.

Lemma strokeWave_pathOnly sin cos w h layer time parallaxX :
  forallb pathOnly (strokeWave sin cos w h layer time parallaxX 0) = true.
Proof.
  rewrite strokeWave_samples. apply forallb_map_const.
  intros x. unfold strokeTo. by destruct (x =? 0)%Z.
Qed.

Lemma drawMountain_paints sin cos w h layer time parallaxX (a : number) :
  paints a (drawMountain sin cos w h layer time parallaxX)
  = [ (Fill, MountainLayerConfig.opacity layer); (Stroke, 1%float) ]
  /\ alphaAfter a (drawMountain sin cos w h layer time parallaxX) = 1%float.
Proof.
  unfold drawMountain.
  pose proof (fillWave_pathOnly sin cos w h layer time parallaxX) as Hf.
  pose proof (strokeWave_pathOnly sin cos w h layer time parallaxX) as Hs.
  split;
    repeat first
      [ rewrite (proj1 (pathOnly_silent _ _ Hf))
      | rewrite (proj2 (pathOnly_silent _ _ Hf))
      | rewrite (proj1 (pathOnly_silent _ _ Hs))
      | rewrite (proj2 (pathOnly_silent _ _ Hs))
      | rewrite paints_app
      | rewrite alphaAfter_app
      | progress cbn [paints alphaAfter app] ];
    reflexivity.
Qed.

Lemma layers_paints sin cos w h time parallaxX (ls : list MountainLayerConfig.t)
    (a : number) :
  paints a (concat (map (fun layer =>
                           drawMountain sin cos w h layer time parallaxX) ls))
  = concat (map (fun layer =>
                   [ (Fill, MountainLayerConfig.opacity layer);
                     (Stroke, 1%float) ]) ls).
Proof.
  revert a. induction ls as [|l ls IH]; intros a; [reflexivity|].
  cbn [map concat]. rewrite paints_app.
  destruct (drawMountain_paints sin cos w h l time parallaxX a) as [-> ->].
  by rewrite IH.
Qed.

Lemma texture_rectOrStyle (w h : number) (rnd : Rand) :
  forallb rectOrStyle (ClearRect 0 0 w h :: drawRicePaperTexture w h rnd)
  = true.
Proof.
  unfold drawRicePaperTexture. cbn [forallb rectOrStyle app andb].
  by apply forallb_map_const.
Qed.

Lemma filter_isRect_clear (x y w h : number) (l : list Cmd) :
  List.filter isRect (ClearRect x y w h :: l) = List.filter isRect l.
Proof. reflexivity. Qed.

Lemma background_paints (a w h : number) (rnd : Rand) :
  paints a (ClearRect 0 0 w h :: drawRicePaperTexture w h rnd)
  = map (fun r => (r, a)) (List.filter isRect (drawRicePaperTexture w h rnd))
  /\ alphaAfter a (ClearRect 0 0 w h :: drawRicePaperTexture w h rnd) = a.
Proof.
  destruct (rectOrStyle_paints a _ (texture_rectOrStyle w h rnd)) as [H1 H2].
  split; [|exact H2]. rewrite H1, filter_isRect_clear. reflexivity.
Qed.

(** X7: whatever alpha the context is left with, [drawMountain] fills the
    silhouette with the layer's opacity and strokes the outline fully opaque,
    and leaves the alpha at 1.  In a frame the paper texture is painted with
    the alpha the frame starts with, then each layer of [LAYERS] in order
    with its own opacity and an opaque outline, and the frame ends with the
    alpha back at 1: from one frame to the next the texture is painted
    opaque. *)
Theorem layers_painted_with_own_opacity (sin cos : number -> number)
    (a : number) :
  (forall w h layer time parallaxX,
     paints a (drawMountain sin cos w h layer time parallaxX)
     = [ (Fill, MountainLayerConfig.opacity layer); (Stroke, 1%float) ]
     /\ alphaAfter a (drawMountain sin cos w h layer time parallaxX) = 1%float)
  /\ forall c time rnd h st,
       exists f rest,
         animate sin cos (Ready c) time rnd h st = Some f
         /\ alphaAfter a (drawn f) = 1%float
         /\ paints a (drawn f)
            = map (fun r => (r, a))
                (List.filter isRect
                   (drawRicePaperTexture (Z2F (width c)) (Z2F (height c)) rnd))
              ++ concat (map (fun layer =>
                                [ (Fill, MountainLayerConfig.opacity layer);
                                  (Stroke, 1%float) ])
                           LAYERS)
              ++ rest.
Proof.
  split; [intros; apply drawMountain_paints|].
  intros c time rnd h st. rewrite animate_ready. eexists _, _.
  split; [reflexivity|]. cbn [drawn]. split.
  - rewrite !alphaAfter_app. reflexivity.
  - rewrite paints_app, (proj1 (background_paints _ _ _ _)),
      (proj2 (background_paints _ _ _ _)).
    rewrite paints_app, layers_paints. reflexivity.
Qed.

(** ** The frame scheduler *)

Lemma handle_requestRef sin cos (ev : Event) (st st' : State) :
  handle sin cos ev st = Some st' ->
  requestRef st'
  = match ev with
    | FrameDue (Ready _) _ _ h => Some h
    | _ => requestRef st
    end.
Proof.
  destruct ev as [win e rnd | e rnd | [| c | c] time rnd h]; cbn [handle];
    rewrite ?animate_ready; by intros [= <-].
Qed.

Lemma deliver_ready sin cos (ev : Event) (st : State) :
  surfaceReady ev = true ->
  deliver sin cos ev (mkWorld st true)
  = (fun s => mkWorld s true) <$> handle sin cos ev st.
Proof.
  destruct ev as [win e rnd | e rnd | [| c | c] time rnd h]; try done.
  intros _. cbn [deliver handle pending refs]. rewrite animate_ready.
  reflexivity.
Qed.

Lemma play_ready sin cos (evs : list Event) (st : State) (id : Z) :
  forallb surfaceReady evs = true ->
  requestRef st = Some id ->
  exists st',
    exec sin cos evs st = Some st'
    /\ play sin cos evs (mkWorld st true) = Some (mkWorld st' true)
    /\ requestRef st' = Some (default id (last (omap frameId evs))).
Proof.
  revert st id. induction evs as [|ev evs IH]; intros st id Hall Hid.
  { exists st. by split_and!. }
  cbn [forallb] in Hall. apply andb_prop in Hall as [Hev Hall].
  destruct (handle_dust sin cos ev st) as (st1 & H1 & _).
  pose proof (handle_requestRef _ _ _ _ _ H1) as Hreq.
  cbn [exec play]. rewrite deliver_ready, H1 by exact Hev. cbn.
  destruct ev as [win e rnd | e rnd | [| c | c] time rnd h]; try done;
    cbn [omap list_omap frameId]; rewrite ?Hid in Hreq.
  - destruct (IH st1 id Hall Hreq) as (st' & ? & ? & ?). by exists st'.
  - destruct (IH st1 id Hall Hreq) as (st' & ? & ? & Hlast). by exists st'.
  - destruct (IH st1 h Hall Hreq) as (st' & ? & ? & Hlast).
    exists st'. split_and!; [done..|]. rewrite Hlast.
    by destruct (omap frameId evs) as [|i ids] using rev_ind;
      rewrite ?last_snoc, ?last_cons, ?last_snoc.
Qed.

(** X8: as long as every display refresh finds the surface ready, the
    scheduler changes nothing: from mount, the run under the scheduler
    leaves the refs the plain run of handlers leaves, a frame is still
    pending, and [requestRef] holds the id of the last request made (the one
    of the last frame, or of the mount if no frame ran). *)
Theorem ready_frames_keep_loop_running (sin cos : number -> number)
    (win : Window) (rnd : Rand) (id : Z) (evs : list Event) :
  forallb surfaceReady evs = true ->
  exists st,
    exec sin cos evs (mounted win rnd id) = Some st
    /\ play sin cos evs (mount win rnd id) = Some (mkWorld st true)
    /\ requestRef st = Some (default id (last (omap frameId evs))).
Proof. intros Hall. by apply play_ready. Qed.

Lemma ready_frames_keep_loop_running_witness :
  let still : number -> number := fun _ => 0%float in
  let win := {| innerWidth := 800; innerHeight := 600 |} in
  let rnd : Rand := fun _ => 0.5%float in
  let c := {| width := 10; height := 10 |} in
  let evs := [ FrameDue (Ready c) 16 rnd 2;
               Clicked {| clientX := 5; clientY := 5 |} rnd;
               FrameDue (Ready c) 32 rnd 3 ] in
  exists st,
    play still still evs (mount win rnd 1) = Some (mkWorld st true)
    /\ requestRef st = Some 3%Z.
Proof.
  intros still win rnd c evs.
  destruct (ready_frames_keep_loop_running still still win rnd 1%Z evs
              eq_refl) as (st & _ & Hplay & Hreq).
  exists st. split; [exact Hplay | exact Hreq].
Defined.

Lemma handle_input_lengths sin cos (ev : Event) (st st' : State) :
  isInput ev = true ->
  handle sin cos ev st = Some st' ->
  frameCount st' = frameCount st
  /\ goldDust st' = goldDust st
  /\ smoothedIn st' = smoothedIn st
  /\ length (ripples st')
     = length (ripples st) + (if isClick ev then 1 else 0)
  /\ length (particles st')
     = length (particles st)
       + (if Z.even (frameCount st) then if isMove ev then 1 else 0 else 0).
Proof.
  destruct ev as [win e rnd | e rnd | s time rnd h]; [| |done]; intros _.
  - intros [= <-]. split_and!; try done; try (cbn; lia).
    rewrite handleMouseMove_length. cbn [isMove]. by destruct (Z.even _).
  - intros [= <-]. cbn [handleClick frameCount goldDust ripples particles
                         isClick isMove].
    split_and!; try done; try (by rewrite length_app).
    destruct (Z.even _); lia.
Qed.

Lemma play_stopped sin cos (evs : list Event) (st : State) :
  exists st',
    play sin cos evs (mkWorld st false) = Some (mkWorld st' false)
    /\ exec sin cos (List.filter isInput evs) st = Some st'
    /\ frameCount st' = frameCount st
    /\ goldDust st' = goldDust st
    /\ smoothedIn st' = smoothedIn st
    /\ length (ripples st') = length (ripples st) + count isClick evs
    /\ length (particles st')
       = length (particles st)
         + (if Z.even (frameCount st) then count isMove evs else 0).
Proof.
  revert st. induction evs as [|ev evs IH]; intros st.
  { exists st. unfold count. cbn. split_and!; try done; try lia.
    destruct (Z.even _); lia. }
  rewrite !count_cons. cbn [play List.filter].
  destruct (isInput ev) eqn:Hin.
  - destruct (handle_dust sin cos ev st) as (st1 & H1 & _).
    destruct (handle_input_lengths _ _ _ _ _ Hin H1)
      as (Hfc & Hd & Hs & Hr & Hp).
    assert (deliver sin cos ev (mkWorld st false) = Some (mkWorld st1 false))
      as -> by (destruct ev; [| |done]; cbn in H1 |- *;
                injection H1 as <-; reflexivity).
    cbn [mbind option_bind exec]. rewrite H1. cbn [mbind option_bind].
    destruct (IH st1) as (st' & Hplay & Hex & Hfc' & Hd' & Hs' & Hr' & Hp').
    exists st'. rewrite Hfc in Hp'.
    split_and!; try done; try congruence; try lia;
      destruct (Z.even (frameCount st)); lia.
  - destruct ev as [win e rnd | e rnd | s time rnd h]; [done | done |].
    cbn [deliver pending mbind option_bind isClick isMove].
    destruct (IH st) as (st' & Hplay & Hex & Hfc' & Hd' & Hs' & Hr' & Hp').
    exists st'. split_and!; try done; try lia;
      destruct (Z.even (frameCount st)); lia.
Qed.

(** X9: once no frame is pending (a frame found no surface, or the effect
    was torn down), display refreshes run nothing, while the handlers go on:
    the refs end as the moves and clicks alone leave them.  The frame
    counter, the dust and the smoothed pointer stay, every click adds a
    ripple and, on an even frame count, every move a particle, and none is
    ever removed: the pools grow with the input. *)
Theorem stopped_loop_only_accumulates (sin cos : number -> number)
    (evs : list Event) (st : State) :
  exists st',
    play sin cos evs (mkWorld st false) = Some (mkWorld st' false)
    /\ exec sin cos (List.filter isInput evs) st = Some st'
    /\ frameCount st' = frameCount st
    /\ goldDust st' = goldDust st
    /\ smoothedIn st' = smoothedIn st
    /\ length (ripples st') = length (ripples st) + count isClick evs
    /\ length (particles st')
       = length (particles st)
         + (if Z.even (frameCount st) then count isMove evs else 0).
Proof. apply play_stopped. Qed.

(** ** Teardown *)

Lemma cleanup_idempotent (w : World) : cleanup (cleanup w) = cleanup w.
Proof.
  unfold cleanup. destruct (requestRef (refs w)) as [id|] eqn:Hreq.
  - destruct (id =? 0)%Z eqn:Hid; cbn [refs]; by rewrite Hreq, ?Hid.
  - by rewrite Hreq.
Qed.

Lemma deliver_requestRef sin cos (ev : Event) (w w' : World) :
  frameId ev <> Some 0%Z ->
  (exists id, requestRef (refs w) = Some id /\ id <> 0%Z) ->
  deliver sin cos ev w = Some w' ->
  exists id, requestRef (refs w') = Some id /\ id <> 0%Z.
Proof.
  intros Hev Hw Hd.
  destruct ev as [win e rnd | e rnd | s time rnd h]; cbn [deliver handle] in Hd.
  - by injection Hd as <-.
  - by injection Hd as <-.
  - destruct (pending w); [|by injection Hd as <-].
    destruct s as [| c | c]; [by injection Hd as <- | by injection Hd as <- |].
    rewrite animate_ready in Hd. injection Hd as <-. cbn.
    exists h. split; [done|]. intros ->. by apply Hev.
Qed.

Lemma play_requestRef sin cos (evs : list Event) (w w' : World) :
  Forall (fun ev => frameId ev <> Some 0%Z) evs ->
  (exists id, requestRef (refs w) = Some id /\ id <> 0%Z) ->
  play sin cos evs w = Some w' ->
  exists id, requestRef (refs w') = Some id /\ id <> 0%Z.
Proof.
  intros Hevs. revert w. induction Hevs as [|ev evs Hev _ IH]; intros w Hw Hp.
  - by injection Hp as <-.
  - cbn in Hp. destruct (deliver sin cos ev w) as [w1|] eqn:Hd; [|done].
    eauto using deliver_requestRef.
Qed.

(** X10: the teardown of the frame effect stops the loop.  In any run from
    mount in which [requestAnimationFrame] returns non-zero ids (as browsers
    do), after the cleanup no frame is pending, whatever display refreshes
    follow run nothing, and the refs are untouched; running the cleanup
    again changes nothing. *)
Theorem cleanup_stops_loop (sin cos : number -> number) (win : Window)
    (rnd : Rand) (id : Z) (evs : list Event) (w : World) :
  id <> 0%Z ->
  Forall (fun ev => frameId ev <> Some 0%Z) evs ->
  play sin cos evs (mount win rnd id) = Some w ->
  pending (cleanup w) = false
  /\ refs (cleanup w) = refs w
  /\ cleanup (cleanup w) = cleanup w
  /\ forall fs, play sin cos (refreshes fs) (cleanup w) = Some (cleanup w).
Proof.
  intros Hid Hevs Hplay.
  assert (exists i, requestRef (refs (mount win rnd id)) = Some i /\ i <> 0%Z)
    as Hmount by (exists id; by split).
  destruct (play_requestRef sin cos evs _ _ Hevs Hmount Hplay)
    as (i & Hreq & Hi).
  apply Z.eqb_neq in Hi.
  assert (cleanup w = mkWorld (refs w) false) as Hc
    by (unfold cleanup; by rewrite Hreq, Hi).
  split_and!; [by rewrite Hc.. | apply cleanup_idempotent |].
  intros fs. rewrite Hc. apply play_not_pending.
Qed.

Lemma cleanup_stops_loop_witness :
  let still : number -> number := fun _ => 0%float in
  let win := {| innerWidth := 800; innerHeight := 600 |} in
  let rnd : Rand := fun _ => 0.5%float in
  let c := {| width := 10; height := 10 |} in
  let evs := [ FrameDue (Ready c) 16 rnd 2;
               MouseMoved win {| clientX := 5; clientY := 5 |} rnd ] in
  exists w,
    play still still evs (mount win rnd 1) = Some w
    /\ pending w = true
    /\ pending (cleanup w) = false
    /\ play still still (refreshes [(Ready c, 32%float, rnd, 3%Z)]) (cleanup w)
       = Some (cleanup w).
Proof.
  intros still win rnd c evs.
  destruct (play_ready still still evs (mounted win rnd 1) 1%Z eq_refl eq_refl)
    as (st & _ & Hplay & _).
  exists (mkWorld st true). split; [exact Hplay|]. split; [reflexivity|].
  assert (Forall (fun ev => frameId ev <> Some 0%Z) evs) as Hids
    by (repeat constructor; discriminate).
  destruct (cleanup_stops_loop still still win rnd 1%Z evs (mkWorld st true)
              ltac:(discriminate) Hids Hplay) as (Hp & _ & _ & Hstop).
  split; [exact Hp | apply Hstop].
Defined.

(** ** Where the mountain waves are sampled *)

Lemma sampleXs_length (w : Z) : length (sampleXs w) = Z.to_nat (w / 5 + 1).
Proof. unfold sampleXs. by rewrite length_map, length_seq. Qed.

Lemma sampleXs_bounds (w : Z) :
  Forall (fun x => 0 <= x <= w /\ x mod 5 = 0)%Z (sampleXs w).
Proof.
  unfold sampleXs. apply Forall_map, Forall_forall. intros k Hk.
  apply list_elem_of_In, in_seq in Hk. cbn beta. split.
  - Z.div_mod_to_equations. lia.
  - rewrite Z.mul_comm. apply Z_mod_mult.
Qed.

Lemma sampleXs_ends (w : Z) :
  (0 <= w)%Z ->
  head (sampleXs w) = Some 0%Z /\ last (sampleXs w) = Some (5 * (w / 5))%Z.
Proof.
  intros Hw. unfold sampleXs.
  assert (exists m, Z.to_nat (w / 5 + 1) = S m /\ Z.of_nat m = (w / 5)%Z)
    as (m & -> & Hm).
  { exists (Z.to_nat (w / 5)). Z.div_mod_to_equations. lia. }
  split; [reflexivity|].
  rewrite seq_S, map_app. cbn [map]. rewrite last_snoc.
  cbn [plus]. by rewrite Hm.
Qed.



(** ** What a frame draws, and in which order *)

(** X12: a frame on a ready surface draws, in this order: the cleared
    canvas and the paper texture; every layer of [LAYERS], back to front,
    with the frame's time and the pointer position smoothed in this frame;
    every gold-dust particle at its new position, in pool order; the ripples
    that survive this frame's update, newest first; the ink particles that
    survive it, newest first; and the alpha reset.  What this frame removes
    is not drawn. *)
Theorem frame_draw_order (sin cos : number -> number) (c : Canvas)
    (time : number) (rnd : Rand) (h : Z) (st : State) :
  exists f,
    animate sin cos (Ready c) time rnd h st = Some f
    /\ ripples (state f)
       = List.filter (fun r => negb (Ripple.opacity r <=? 0)%float)
           (map growRipple (ripples st))
    /\ particles (state f)
       = List.filter (fun p => negb (Particle.life p <=? 0)%float)
           (map dryInk (particles st))
    /\ drawn f
       = (ClearRect 0 0 (Z2F (width c)) (Z2F (height c))
          :: drawRicePaperTexture (Z2F (width c)) (Z2F (height c)) rnd)
         ++ concat (map (fun layer =>
                           drawMountain sin cos (width c) (height c) layer
                             (time * 0.001) (Mouse.x (lerp (mouse st))))
                      LAYERS)
         ++ concat (map (drawDust sin (time * 0.001)) (goldDust (state f)))
         ++ concat (map drawRipple (rev (ripples (state f))))
         ++ concat (map drawInk (rev (particles (state f))))
         ++ [ SetGlobalAlpha 1 ].
Proof.
  rewrite animate_ready. eexists. split; [reflexivity|].
  by split_and!.
Qed.

(** ** Where a frame's randomness goes *)

(** X13: the random draws of a frame only reach the grain of the paper
    texture.  Whatever [Math.random] returns during a frame, the refs the
    frame leaves are the same, and so is everything it draws after the
    texture. *)
Theorem frame_randomness_only_in_texture (sin cos : number -> number)
    (s : Surface) (time : number) (rnd rnd' : Rand) (h : Z) (st : State) :
  state <$> animate sin cos s time rnd h st
  = state <$> animate sin cos s time rnd' h st
  /\ forall c,
       exists f f' rest,
         animate sin cos (Ready c) time rnd h st = Some f
         /\ animate sin cos (Ready c) time rnd' h st = Some f'
         /\ drawn f
            = (ClearRect 0 0 (Z2F (width c)) (Z2F (height c))
               :: drawRicePaperTexture (Z2F (width c)) (Z2F (height c)) rnd)
              ++ rest
         /\ drawn f'
            = (ClearRect 0 0 (Z2F (width c)) (Z2F (height c))
               :: drawRicePaperTexture (Z2F (width c)) (Z2F (height c)) rnd')
              ++ rest.
Proof.
  split.
  - destruct s as [| c | c]; [reflexivity | reflexivity |].
    by rewrite !animate_ready.
  - intros c. rewrite !animate_ready. eexists _, _, _.
    split_and!; reflexivity.
Qed.
